(** * durable-objects-nosql: the query and update engine

    A shallow embedding of [src/durable-objects-nosql/src/types/index.ts]
    (the second document of that file: [CursorImpl], [CollectionImpl] and the
    path helpers), and the properties of it that the specification states.

    Conventions of the embedding.
    - A JavaScript value is a [jsval]: the values of JSON, [undefined] and
      [NaN]. Functions, symbols, dates and other host objects are outside
      the model, and so are cyclic structures and the limit of the call
      stack. Numbers are integers ([VNum]) plus [VNaN]; IEEE-754 fractions,
      infinities and negative zero are outside the model. An object is the
      list of its own enumerable properties in
      the order [Object.entries] yields them; inherited properties
      ([toString], [constructor], ...) are not modelled, so field names are
      assumed to differ from them.
    - A thrown exception is the [Throw] outcome of the [outcome] monad; a
      promise that rejects is modelled the same way. Where the source would
      go on with a sparse array or an array with named properties, the
      embedding stops with [OutOfModel].
    - Functions that assign to objects return the content of the object
      after the assignment. [applyUpdate] is embedded a second time, in the
      module [Heap], on a store of objects with identities: that is where
      the sharing between its argument and its result shows.
    - The storage is the table of rows and the list of statements executed;
      a JSON payload is represented by the value it decodes to. A statement
      does not fail, except an [INSERT] of an id the table has.
    - The host's [RegExp] is a parameter of the development
      ([RegExp_test]); the host's stable [Array.prototype.sort] is
      [Array_sort]. *)

From Stdlib Require Import List String Ascii ZArith Bool Lia.
From Stdlib Require Import DecimalString Permutation Sorted OrderedTypeEx.
Import ListNotations.

Local Open Scope string_scope.
Local Open Scope Z_scope.

(** ** Exceptions *)

Inductive error : Type :=
| Error (message : string)   (* [throw new Error(message)] of the source *)
| TypeError                  (* raised by the host: property access on null, ... *)
| SyntaxError                (* raised by [new RegExp] on a malformed pattern *)
| OutOfModel.                (* the source goes on with a value the model lacks:
                                a sparse array or an array with named properties *)

Inductive outcome (A : Type) : Type :=
| Ok (a : A)
| Throw (e : error).
Arguments Ok {A} a.
Arguments Throw {A} e.

Definition bind {A B : Type} (c : outcome A) (k : A -> outcome B) : outcome B :=
  match c with
  | Ok a => k a
  | Throw e => Throw e
  end.

Notation "x <- c ;; k" := (bind c (fun x => k))
  (at level 61, c at next level, right associativity).
Notation "' pat <- c ;; k" := (bind c (fun x => match x with pat => k end))
  (at level 61, pat pattern, c at next level, right associativity).

(** ** JavaScript values *)

Unset Elimination Schemes.
Inductive jsval : Type :=
| VUndefined
| VNull
| VBool (b : bool)
| VNum (n : Z)
| VNaN
| VStr (s : string)
| VArr (elems : list jsval)
| VObj (props : list (string * jsval)).
Set Elimination Schemes.

(** Induction over values that reaches the elements of arrays and the
    property values of objects. *)
Definition jsval_ind (P : jsval -> Prop)
  (Hundef : P VUndefined) (Hnull : P VNull)
  (Hbool : forall b, P (VBool b)) (Hnum : forall n, P (VNum n))
  (Hnan : P VNaN) (Hstr : forall s, P (VStr s))
  (Harr : forall elems, Forall P elems -> P (VArr elems))
  (Hobj : forall props, Forall (fun kv => P (snd kv)) props -> P (VObj props))
  : forall v, P v :=
  fix go (v : jsval) : P v :=
    match v with
    | VUndefined => Hundef
    | VNull => Hnull
    | VBool b => Hbool b
    | VNum n => Hnum n
    | VNaN => Hnan
    | VStr s => Hstr s
    | VArr elems =>
        Harr elems
          ((fix all (l : list jsval) : Forall P l :=
              match l with
              | [] => Forall_nil _
              | x :: r => Forall_cons x (go x) (all r)
              end) elems)
    | VObj props =>
        Hobj props
          ((fix all (l : list (string * jsval)) : Forall (fun kv => P (snd kv)) l :=
              match l with
              | [] => Forall_nil _
              | kv :: r => Forall_cons kv (go (snd kv)) (all r)
              end) props)
    end.

(** *** Strings and numerals *)

(** [path.split('.')]: never empty, [""] splits into [[""]]. *)
Fixpoint split_dot (s : string) : list string :=
  match s with
  | EmptyString => [EmptyString]
  | String c rest =>
      if Ascii.eqb c "."%char then EmptyString :: split_dot rest
      else match split_dot rest with
           | [] => [String c EmptyString]
           | part :: parts => String c part :: parts
           end
  end.

(** [key.startsWith('$')]. *)
Definition startsWith_dollar (key : string) : bool :=
  match key with
  | String c _ => Ascii.eqb c "$"%char
  | EmptyString => false
  end.

(** Decimal rendering of an array index and of a number. *)
Definition index_key (i : nat) : string := NilZero.string_of_uint (Nat.to_uint i).
Definition Z_to_string (n : Z) : string := NilZero.string_of_int (Z.to_int n).

Fixpoint join_comma (l : list string) : string :=
  match l with
  | [] => ""
  | [s] => s
  | s :: r => s ++ "," ++ join_comma r
  end.

(** [ToString]. *)
Fixpoint ToString (v : jsval) : string :=
  match v with
  | VUndefined => "undefined"
  | VNull => "null"
  | VBool true => "true"
  | VBool false => "false"
  | VNum n => Z_to_string n
  | VNaN => "NaN"
  | VStr s => s
  | VArr elems =>
      join_comma
        ((fix each (l : list jsval) : list string :=
            match l with
            | [] => []
            | x :: r =>
                match x with
                | VUndefined | VNull => ""
                | _ => ToString x
                end :: each r
            end) elems)
  | VObj _ => "[object Object]"
  end.

(** [ToPrimitive]: arrays and plain objects convert through [toString]. *)
Definition ToPrimitive (v : jsval) : jsval :=
  match v with
  | VArr _ | VObj _ => VStr (ToString v)
  | _ => v
  end.

Definition digit_of (c : ascii) : option Z :=
  let n := Z.of_nat (nat_of_ascii c) in
  if (48 <=? n) && (n <=? 57) then Some (n - 48) else None.

Fixpoint digits_value (acc : Z) (s : string) : option Z :=
  match s with
  | EmptyString => Some acc
  | String c rest =>
      match digit_of c with
      | Some d => digits_value (10 * acc + d) rest
      | None => None
      end
  end.

(** [StringToNumber] on the integer numerals: the empty string is [0], an
    optionally signed run of decimal digits is its value, anything else is
    [NaN] ([None]). Numerals of fractions lie outside the number model. *)
Definition StringToNumber (s : string) : option Z :=
  match s with
  | EmptyString => Some 0
  | String c rest =>
      if Ascii.eqb c "-"%char then
        match rest with
        | EmptyString => None
        | _ => option_map Z.opp (digits_value 0 rest)
        end
      else if Ascii.eqb c "+"%char then
        match rest with
        | EmptyString => None
        | _ => digits_value 0 rest
        end
      else digits_value 0 s
  end.

(** [ToNumber] of a primitive; [None] is [NaN]. *)
Definition ToNumber (v : jsval) : option Z :=
  match ToPrimitive v with
  | VNull => Some 0
  | VBool true => Some 1
  | VBool false => Some 0
  | VNum n => Some n
  | VStr s => StringToNumber s
  | _ => None
  end.

(** *** Operators *)

(** [typeof v]. *)
Definition typeof (v : jsval) : string :=
  match v with
  | VUndefined => "undefined"
  | VBool _ => "boolean"
  | VNum _ | VNaN => "number"
  | VStr _ => "string"
  | VNull | VArr _ | VObj _ => "object"
  end.

(** Truthiness, as [if (v)], [!v] and [v || d] read it. *)
Definition truthy (v : jsval) : bool :=
  match v with
  | VUndefined | VNull | VNaN => false
  | VBool b => b
  | VNum n => negb (n =? 0)
  | VStr s => negb (String.eqb s "")
  | VArr _ | VObj _ => true
  end.

(** [a === b]. Two objects are strictly equal only when they are the same
    object; the two sides compared by the engine are a value decoded from
    storage and a value supplied by the caller, which never are. *)
Definition strict_eq (a b : jsval) : bool :=
  match a, b with
  | VUndefined, VUndefined => true
  | VNull, VNull => true
  | VBool x, VBool y => Bool.eqb x y
  | VNum x, VNum y => x =? y
  | VStr x, VStr y => String.eqb x y
  | _, _ => false
  end.

(** [SameValueZero], the equality of [Array.prototype.includes]. *)
Definition same_value_zero (a b : jsval) : bool :=
  match a, b with
  | VNaN, VNaN => true
  | _, _ => strict_eq a b
  end.

Definition Array_includes (l : list jsval) (v : jsval) : bool :=
  existsb (fun x => same_value_zero x v) l.

(** Code-unit order on strings. *)
Definition string_ltb (a b : string) : bool :=
  match String.compare a b with
  | Lt => true
  | _ => false
  end.

(** The abstract relational comparison [a < b]: [None] when a side is
    [NaN] (the comparison is then undefined). *)
Definition js_less (a b : jsval) : option bool :=
  match ToPrimitive a, ToPrimitive b with
  | VStr x, VStr y => Some (string_ltb x y)
  | pa, pb =>
      match ToNumber pa, ToNumber pb with
      | Some x, Some y => Some (x <? y)
      | _, _ => None
      end
  end.

Definition js_lt (a b : jsval) : bool :=   (* a < b *)
  match js_less a b with Some r => r | None => false end.
Definition js_gt (a b : jsval) : bool :=   (* a > b *)
  js_lt b a.
Definition js_le (a b : jsval) : bool :=   (* a <= b *)
  match js_less b a with Some r => negb r | None => false end.
Definition js_ge (a b : jsval) : bool :=   (* a >= b *)
  match js_less a b with Some r => negb r | None => false end.

(** [a + b]. *)
Definition js_add (a b : jsval) : jsval :=
  match ToPrimitive a, ToPrimitive b with
  | VStr x, pb => VStr (x ++ ToString pb)
  | pa, VStr y => VStr (ToString pa ++ y)
  | pa, pb =>
      match ToNumber pa, ToNumber pb with
      | Some x, Some y => VNum (x + y)
      | _, _ => VNaN
      end
  end.

(** *** Property access *)

Fixpoint lookup (key : string) (props : list (string * jsval)) : option jsval :=
  match props with
  | [] => None
  | (k, v) :: rest => if String.eqb k key then Some v else lookup key rest
  end.

(** The position an index key names among the first [n] indices. *)
Definition index_of_key (key : string) (n : nat) : option nat :=
  List.find (fun i => String.eqb (index_key i) key) (seq 0 n).

Fixpoint chars (s : string) : list jsval :=
  match s with
  | EmptyString => []
  | String c rest => VStr (String c EmptyString) :: chars rest
  end.

(** Own property [key] of an array-like with elements [l]. *)
Definition indexed_get (l : list jsval) (key : string) : jsval :=
  match index_of_key key (List.length l) with
  | Some i => nth i l VUndefined
  | None =>
      if String.eqb key "length" then VNum (Z.of_nat (List.length l))
      else VUndefined
  end.

(** [current[part]] for a [current] that is neither null nor undefined. *)
Definition js_get (current : jsval) (part : string) : jsval :=
  match current with
  | VObj props =>
      match lookup part props with
      | Some v => v
      | None => VUndefined
      end
  | VArr elems => indexed_get elems part
  | VStr s => indexed_get (chars s) part
  | _ => VUndefined
  end.

(** [part in current]; a [TypeError] when [current] is not an object. *)
Definition js_in (part : string) (current : jsval) : outcome bool :=
  match current with
  | VObj props =>
      Ok (match lookup part props with Some _ => true | None => false end)
  | VArr elems =>
      Ok (match index_of_key part (List.length elems) with
          | Some _ => true
          | None => String.eqb part "length"
          end)
  | _ => Throw TypeError
  end.

(** [Object.entries(v)]. *)
Fixpoint indexed (i : nat) (l : list jsval) : list (string * jsval) :=
  match l with
  | [] => []
  | x :: r => (index_key i, x) :: indexed (S i) r
  end.

Definition Object_entries (v : jsval) : outcome (list (string * jsval)) :=
  match v with
  | VUndefined | VNull => Throw TypeError
  | VObj props => Ok props
  | VArr elems => Ok (indexed 0 elems)
  | VStr s => Ok (indexed 0 (chars s))
  | _ => Ok []
  end.

(** ** Path helpers *)

(** The loop of [getNestedProperty] over the path segments. *)
Fixpoint get_parts (current : jsval) (parts : list string) : jsval :=
  match parts with
  | [] => current
  | part :: rest =>
      match current with
      | VNull | VUndefined => VUndefined
      | _ => get_parts (js_get current part) rest
      end
  end.

Definition getNestedProperty (obj : jsval) (path : string) : jsval :=
  get_parts obj (split_dot path).

(** [current[key] = value] (strict mode: the module is an ES module). An
    existing property keeps its position, a new one is added last. *)
Fixpoint assign (key : string) (value : jsval) (props : list (string * jsval))
    : list (string * jsval) :=
  match props with
  | [] => [(key, value)]
  | (k, v) :: rest =>
      if String.eqb k key then (k, value) :: rest
      else (k, v) :: assign key value rest
  end.

Fixpoint replace_nth (i : nat) (value : jsval) (l : list jsval) : list jsval :=
  match l, i with
  | [], _ => []
  | _ :: r, O => value :: r
  | x :: r, S j => x :: replace_nth j value r
  end.

Definition js_set (current : jsval) (key : string) (value : jsval) : outcome jsval :=
  match current with
  | VObj props => Ok (VObj (assign key value props))
  | VArr elems =>
      match index_of_key key (S (List.length elems)) with
      | Some i =>
          if Nat.eqb i (List.length elems) then Ok (VArr (elems ++ [value]))
          else Ok (VArr (replace_nth i value elems))
      | None => Throw OutOfModel
      end
  | _ => Throw TypeError
  end.

(** [delete current[key]]. *)
Fixpoint remove_key (key : string) (props : list (string * jsval))
    : list (string * jsval) :=
  match props with
  | [] => []
  | (k, v) :: rest =>
      if String.eqb k key then rest else (k, v) :: remove_key key rest
  end.

Definition js_delete (current : jsval) (key : string) : outcome jsval :=
  match current with
  | VObj props => Ok (VObj (remove_key key props))
  | VArr elems =>
      match index_of_key key (List.length elems) with
      | Some _ => Throw OutOfModel          (* leaves a hole *)
      | None => if String.eqb key "length" then Throw TypeError else Ok current
      end
  | VStr s =>
      match index_of_key key (List.length (chars s)) with
      | Some _ => Throw TypeError
      | None => if String.eqb key "length" then Throw TypeError else Ok current
      end
  | VUndefined | VNull => Throw TypeError
  | _ => Ok current
  end.

(** The object [current] once the object it holds under [part] has
    become [next]: the source mutates that object in place, the embedding
    puts its new content back where it was read. *)
Definition put_back (current : jsval) (part : string) (next : jsval) : jsval :=
  match current with
  | VObj props => VObj (assign part next props)
  | VArr elems =>
      match index_of_key part (List.length elems) with
      | Some i => VArr (replace_nth i next elems)
      | None => current
      end
  | _ => current
  end.

(** The loop of [setNestedProperty], as a function of the object it walks:
    it returns that object after the assignment. [parts] is never empty. *)
Fixpoint set_parts (current : jsval) (parts : list string) (value : jsval)
    : outcome jsval :=
  match parts with
  | [] => Ok current
  | [last] => js_set current last value
  | part :: rest =>
      present <- js_in part current ;;
      if present then
        next <- set_parts (js_get current part) rest value ;;
        Ok (put_back current part next)
      else
        current' <- js_set current part (VObj []) ;;       (* current[part] = {} *)
        next <- set_parts (VObj []) rest value ;;
        Ok (put_back current' part next)
  end.

Definition setNestedProperty (obj : jsval) (path : string) (value : jsval)
    : outcome jsval :=
  set_parts obj (split_dot path) value.

(** The loop of [deleteNestedProperty]. *)
Fixpoint delete_parts (current : jsval) (parts : list string) : outcome jsval :=
  match parts with
  | [] => Ok current
  | [last] => js_delete current last
  | part :: rest =>
      present <- js_in part current ;;
      if present then
        next <- delete_parts (js_get current part) rest ;;
        Ok (put_back current part next)
      else Ok current                                      (* return *)
  end.

Definition deleteNestedProperty (obj : jsval) (path : string) : outcome jsval :=
  delete_parts obj (split_dot path).

(** [array.slice(start)] and [array.slice(start, end)] on integer bounds. *)
Definition relative_index (len k : Z) : Z :=
  if k <? 0 then Z.max (len + k) 0 else Z.min k len.

Definition Array_slice {A : Type} (l : list A) (start : Z) (finish : option Z) : list A :=
  let len := Z.of_nat (List.length l) in
  let from := relative_index len start in
  let to := match finish with
            | Some e => relative_index len e
            | None => len
            end in
  firstn (Z.to_nat (to - from)) (skipn (Z.to_nat from) l).

(** Monadic loops: [for (const x of l) ...] and [l.filter(f)] with a body
    that may throw. *)
Fixpoint foldM {A S : Type} (f : S -> A -> outcome S) (l : list A) (s : S) : outcome S :=
  match l with
  | [] => Ok s
  | x :: r => s' <- f s x ;; foldM f r s'
  end.

Fixpoint filterM {A : Type} (f : A -> outcome bool) (l : list A) : outcome (list A) :=
  match l with
  | [] => Ok []
  | x :: r =>
      keep <- f x ;;
      r' <- filterM f r ;;
      Ok (if keep then x :: r' else r')
  end.

(** [l.every(f)] and [l.some(f)] with a callback that may throw; they stop
    at the first element that decides. A loop [for (const x of l)
    { if (!f(x)) return false }; return true] is [every f l] as well.
    [every_indexed] hands the callback the index too. *)
Section Loops.

Context {T : Type}.

Fixpoint every (f : T -> outcome bool) (l : list T) : outcome bool :=
  match l with
  | [] => Ok true
  | x :: rest => holds <- f x ;; if holds then every f rest else Ok false
  end.

Fixpoint some (f : T -> outcome bool) (l : list T) : outcome bool :=
  match l with
  | [] => Ok false
  | x :: rest => holds <- f x ;; if holds then Ok true else some f rest
  end.

Fixpoint every_indexed (f : nat -> T -> outcome bool) (i : nat) (l : list T)
    : outcome bool :=
  match l with
  | [] => Ok true
  | x :: rest => holds <- f i x ;; if holds then every_indexed f (S i) rest else Ok false
  end.

End Loops.

(** ** Predicate evaluation: [matchesOperator] and [matchesQuery] *)

(** The pattern [new RegExp(operatorValue)] compiles: the empty pattern
    for an undefined operand, the operand converted to a string otherwise. *)
Definition regex_pattern (operatorValue : jsval) : string :=
  match operatorValue with
  | VUndefined => ""
  | _ => ToString operatorValue
  end.

Section Engine.

(** The host's regular expressions: [RegExp_test pattern subject] is
    [new RegExp(pattern).test(subject)], [None] when the constructor throws
    a [SyntaxError]. *)
Variable RegExp_test : string -> string -> option bool.

(** [new RegExp(operatorValue).test(value)]: the subject is converted to a
    string. *)
Definition regex_test (operatorValue value : jsval) : outcome bool :=
  match RegExp_test (regex_pattern operatorValue) (ToString value) with
  | Some b => Ok b
  | None => Throw SyntaxError
  end.

(** [matchesOperator(value, operator, operatorValue)]. The recursive call
    of the [$not] case, [this.matchesQuery({ value }, { value: operatorValue })],
    is the argument [matchesQuery_not]. *)
Definition matchesOperator
    (matchesQuery_not : jsval -> jsval -> outcome bool)
    (value : jsval) (operator : string) (operatorValue : jsval) : outcome bool :=
  if String.eqb operator "$eq" then Ok (strict_eq value operatorValue)
  else if String.eqb operator "$gt" then Ok (js_gt value operatorValue)
  else if String.eqb operator "$gte" then Ok (js_ge value operatorValue)
  else if String.eqb operator "$lt" then Ok (js_lt value operatorValue)
  else if String.eqb operator "$lte" then Ok (js_le value operatorValue)
  else if String.eqb operator "$ne" then Ok (negb (strict_eq value operatorValue))
  else if String.eqb operator "$in" then
    Ok (match operatorValue with
        | VArr elems => Array_includes elems value
        | _ => false
        end)
  else if String.eqb operator "$nin" then
    Ok (match operatorValue with
        | VArr elems => negb (Array_includes elems value)
        | _ => false
        end)
  else if String.eqb operator "$not" then
    b <- matchesQuery_not value operatorValue ;; Ok (negb b)
  else if String.eqb operator "$exists" then
    Ok (if truthy operatorValue
        then negb (strict_eq value VUndefined)
        else strict_eq value VUndefined)
  else if String.eqb operator "$type" then
    Ok (strict_eq (VStr (typeof value)) operatorValue)
  else if String.eqb operator "$regex" then regex_test operatorValue value
  else Ok false.

(** The implicit equality of a query entry whose value is not an object:
    [this.matchesOperator(docValue, '$eq', value)]. *)
Definition matchesLiteral (document : jsval) (key : string) (value : jsval) : outcome bool :=
  Ok (strict_eq (getNestedProperty document key) value).

(** The body of the loop of [matchesQuery] for an entry [key: value] whose
    key does not start with [$]. The [$not] operator calls
    [matchesQuery({ value }, { value: operatorValue })], a query of one
    such entry, so the recursion stays in this function and descends into
    the operand. *)
Fixpoint matchesField (document : jsval) (key : string) (value : jsval) {struct value}
    : outcome bool :=
  let docValue := getNestedProperty document key in
  let matchesQuery_not (value operatorValue : jsval) :=
    matchesField (VObj [("value", value)]) "value" operatorValue in
  match value with
  | VObj ops =>
      (* value !== null && typeof value === 'object' *)
      every (fun '(op, opValue) =>
               matchesOperator matchesQuery_not docValue op opValue) ops
  | VArr elems =>
      (* an array is an object too; its entries are keyed by the indices *)
      every_indexed (fun i opValue =>
                       matchesOperator matchesQuery_not docValue (index_key i) opValue)
                    0%nat elems
  | _ => matchesLiteral document key value
  end.

(** [matchesQuery(document, query)]. *)
Fixpoint matchesQuery (document query : jsval) {struct query} : outcome bool :=
  match query with
  | VUndefined | VNull => Throw TypeError     (* Object.entries(query) *)
  | VObj props =>
      every (fun '(key, value) =>
               if startsWith_dollar key then
                 if String.eqb key "$and" then
                   match value with
                   | VArr subQueries => every (matchesQuery document) subQueries
                   | _ => Ok false
                   end
                 else if String.eqb key "$or" then
                   match value with
                   | VArr subQueries => some (matchesQuery document) subQueries
                   | _ => Ok false
                   end
                 else if String.eqb key "$nor" then
                   match value with
                   | VArr subQueries =>
                       b <- some (matchesQuery document) subQueries ;; Ok (negb b)
                   | _ => Ok false
                   end
                 else Ok false
               else matchesField document key value) props
  | VArr elems =>
      (* the entries of an array are keyed by its indices: no key starts with [$] *)
      every_indexed (fun i value => matchesField document (index_key i) value) 0%nat elems
  | VStr s =>
      (* the entries of a string are its characters, compared as literals *)
      every (fun '(key, value) => matchesLiteral document key value)
            (indexed 0 (chars s))
  | VBool _ | VNum _ | VNaN => Ok true          (* no entries *)
  end.

(** ** Mutation: [applyUpdate] *)

(** An update: the entries of the update object, each operator with the
    entries of its field map. *)
Definition Update : Type := list (string * list (string * jsval)).

(** [{ ...document }]: the own enumerable properties, in a new object. *)
Definition spread (document : jsval) : list (string * jsval) :=
  match Object_entries document with
  | Ok props => props
  | Throw _ => []           (* spreading null or undefined adds nothing *)
  end.

(** The message of the error thrown on a field that is not an array; the
    specification calls this error [InvalidFieldType]. *)
Definition InvalidFieldType (operator field : string) : error :=
  Error ("Cannot apply " ++ operator ++ " to non-array field: " ++ field).

Definition or_default (v default : jsval) : jsval :=   (* v || default *)
  if truthy v then v else default.

(** One [case] of the [switch] of [applyUpdate], for one field entry. The
    functions return the content of [result] after the step; the stores the
    source makes through objects it shares with [document] are the subject
    of the [Heap] module below. *)
Definition apply_field (operator : string) (result : jsval) (entry : string * jsval)
    : outcome jsval :=
  let (field, value) := entry in
  if String.eqb operator "$set" then setNestedProperty result field value
  else if String.eqb operator "$unset" then deleteNestedProperty result field
  else if String.eqb operator "$inc" then
    let currentValue := or_default (getNestedProperty result field) (VNum 0) in
    setNestedProperty result field (js_add currentValue value)
  else if String.eqb operator "$push" then
    match or_default (getNestedProperty result field) (VArr []) with
    | VArr currentValue => setNestedProperty result field (VArr (currentValue ++ [value]))
    | _ => Throw (InvalidFieldType "$push" field)
    end
  else if String.eqb operator "$pull" then
    match getNestedProperty result field with
    | VArr currentValue =>
        kept <- filterM (fun item =>
                  b <- matchesQuery (VObj [("item", item)]) (VObj [("item", value)]) ;;
                  Ok (negb b)) currentValue ;;
        setNestedProperty result field (VArr kept)
    | _ => Throw (InvalidFieldType "$pull" field)
    end
  else if String.eqb operator "$addToSet" then
    match or_default (getNestedProperty result field) (VArr []) with
    | VArr currentValue =>
        if Array_includes currentValue value then Ok result
        else setNestedProperty result field (VArr (currentValue ++ [value]))
    | _ => Throw (InvalidFieldType "$addToSet" field)
    end
  else if String.eqb operator "$pop" then
    match getNestedProperty result field with
    | VArr currentValue =>
        if strict_eq value (VNum 1) then
          setNestedProperty result field (VArr (Array_slice currentValue 0 (Some (-1))))
        else if strict_eq value (VNum (-1)) then
          setNestedProperty result field (VArr (Array_slice currentValue 1 None))
        else Ok result
    | _ => Throw (InvalidFieldType "$pop" field)
    end
  else Ok result.

Definition applyUpdate (document : jsval) (update : Update) : outcome jsval :=
  let result := VObj (spread document) in
  foldM (fun result '(operator, fields) =>
           foldM (apply_field operator) fields result)
        update result.

(** ** The cursor: [CursorImpl] *)

(** A sort direction, [1] or [-1]. *)
Inductive direction : Type := Asc | Desc.

Definition direction_value (d : direction) : Z :=
  match d with Asc => 1 | Desc => -1 end.

(** A sort specification: the entries of the [sortSpec] object. *)
Definition SortSpec : Type := list (string * direction).

(** The comparator [toArray] hands to [result.sort]. *)
Fixpoint compare_documents (sort : SortSpec) (a b : jsval) : Z :=
  match sort with
  | [] => 0
  | (key, direction) :: rest =>
      let valueA := getNestedProperty a key in
      let valueB := getNestedProperty b key in
      if js_lt valueA valueB then -1 * direction_value direction
      else if js_gt valueA valueB then 1 * direction_value direction
      else compare_documents rest a b
  end.

(** The host's [Array.prototype.sort(comparator)], which ECMAScript
    requires to be stable: an insertion sort that moves an element past
    those the comparator puts strictly before it. For a comparator that is
    not a consistent order ECMAScript leaves the result to the
    implementation; this is then one admissible result. *)
Fixpoint sort_insert {A : Type} (comparator : A -> A -> Z) (x : A) (l : list A) : list A :=
  match l with
  | [] => [x]
  | y :: r =>
      if comparator x y <=? 0 then x :: y :: r
      else y :: sort_insert comparator x r
  end.

Fixpoint Array_sort {A : Type} (comparator : A -> A -> Z) (l : list A) : list A :=
  match l with
  | [] => []
  | x :: r => sort_insert comparator x (Array_sort comparator r)
  end.

(** The cursor object [find] returns. [documents], [_limit], [_skip] and
    [_sort] are the fields of [CursorImpl]; [_documents] is the property
    the wrapper of [find] reads, which nothing ever assigns; [collectionName]
    and [query] are what the closure [_execute] captured. *)
Record Cursor : Type := mkCursor {
  documents : list jsval;
  _documents : option (list jsval);
  _limit : option Z;
  _skip : option Z;
  _sort : option SortSpec;
  collectionName : string;
  query : jsval
}.

(** [if (n)] on an optional number: undefined and [0] are falsy. *)
Definition number_set (n : option Z) : bool :=
  match n with
  | Some k => negb (k =? 0)
  | None => false
  end.

(** [CursorImpl.prototype.toArray], the method [find] keeps as
    [originalToArray]. *)
Definition CursorImpl_toArray (c : Cursor) : list jsval :=
  let result := documents c in
  let result := match _sort c with
                | Some sort => Array_sort (compare_documents sort) result
                | None => result
                end in
  let result := if number_set (_skip c)
                then Array_slice result (match _skip c with Some k => k | None => 0 end) None
                else result in
  let result := if number_set (_limit c)
                then Array_slice result 0 (_limit c)
                else result in
  result.

Definition count (c : Cursor) : Z := Z.of_nat (List.length (documents c)).

Definition limit (n : Z) (c : Cursor) : Cursor :=
  mkCursor (documents c) (_documents c) (Some n) (_skip c) (_sort c)
           (collectionName c) (query c).

Definition skip (n : Z) (c : Cursor) : Cursor :=
  mkCursor (documents c) (_documents c) (_limit c) (Some n) (_sort c)
           (collectionName c) (query c).

Definition sort (sortSpec : SortSpec) (c : Cursor) : Cursor :=
  mkCursor (documents c) (_documents c) (_limit c) (_skip c) (Some sortSpec)
           (collectionName c) (query c).

Definition set_documents (docs : list jsval) (c : Cursor) : Cursor :=
  mkCursor docs (_documents c) (_limit c) (_skip c) (_sort c)
           (collectionName c) (query c).

(** ** Storage: the [documents] table behind [storage.sql.exec] *)

(** A JSON text, represented by the value it decodes to. *)
Definition json : Type := jsval.

(** [JSON.stringify]: a property whose value is undefined is dropped, an
    undefined or NaN element of an array is written as [null]. *)
Fixpoint JSON_stringify (v : jsval) : json :=
  match v with
  | VNaN => VNull
  | VArr elems =>
      VArr ((fix each (l : list jsval) : list jsval :=
               match l with
               | [] => []
               | VUndefined :: r => VNull :: each r
               | x :: r => JSON_stringify x :: each r
               end) elems)
  | VObj props =>
      VObj ((fix each (l : list (string * jsval)) : list (string * jsval) :=
               match l with
               | [] => []
               | (_, VUndefined) :: r => each r
               | (k, x) :: r => (k, JSON_stringify x) :: each r
               end) props)
  | _ => v
  end.

Definition JSON_parse (text : json) : jsval := text.

Record StoredDocument : Type := mkStoredDocument {
  id : string;
  collection : string;
  data : json
}.

(** The statements the collection executes, with their bindings. *)
Inductive statement : Type :=
| SELECT (collection : string)
| INSERT (id collection : string) (data : json)
| UPDATE (data : json) (id : jsval) (collection : string)
| DELETE (id : jsval) (collection : string).

(** The storage: the rows of the table, and the statements executed so far
    (the calls a test double of [sql.exec] records). *)
Record DurableObjectStorage : Type := mkStorage {
  rows : list StoredDocument;
  executed : list statement
}.

Definition is_select (st : statement) : bool :=
  match st with SELECT _ => true | _ => false end.

(** The number of scans of the table executed so far. *)
Definition scans (s : DurableObjectStorage) : nat :=
  List.length (filter is_select (executed s)).

(** A value bound to the [id] column selects the rows whose id is that
    string; a value that is not a string selects none. *)
Definition row_selected (bound : jsval) (name : string) (r : StoredDocument) : bool :=
  match bound with
  | VStr i => String.eqb (id r) i && String.eqb (collection r) name
  | _ => false
  end.

(** [UPDATE documents SET data = ? WHERE id = ? AND collection = ?]. *)
Definition sql_update (text : json) (bound : jsval) (name : string)
    (s : DurableObjectStorage) : DurableObjectStorage :=
  mkStorage
    (map (fun r => if row_selected bound name r
                   then mkStoredDocument (id r) (collection r) text
                   else r) (rows s))
    (executed s ++ [UPDATE text bound name]).

(** [INSERT INTO documents (id, collection, data) VALUES (?, ?, ?)]; [id]
    is the primary key of the table. *)
Definition sql_insert (i name : string) (text : json)
    (s : DurableObjectStorage) : outcome unit * DurableObjectStorage :=
  let s' := mkStorage (rows s) (executed s ++ [INSERT i name text]) in
  if existsb (fun r => String.eqb (id r) i) (rows s)
  then (Throw (Error "UNIQUE constraint failed: documents.id"), s')
  else (Ok tt, mkStorage (rows s ++ [mkStoredDocument i name text]) (executed s')).

(** ** The collection: [CollectionImpl] *)

(** [getAllDocuments]: one scan, every payload of the collection decoded. *)
Definition getAllDocuments (name : string) (s : DurableObjectStorage)
    : list jsval * DurableObjectStorage :=
  (map (fun r => JSON_parse (data r))
       (filter (fun r => String.eqb (collection r) name) (rows s)),
   mkStorage (rows s) (executed s ++ [SELECT name])).

(** [find(query = {})]: a cursor over no documents yet. *)
Definition find (name : string) (query : jsval) : Cursor :=
  mkCursor [] None None None None name
           (match query with VUndefined => VObj [] | _ => query end).

(** The closure [_execute] of the cursor. *)
Definition _execute (c : Cursor) (s : DurableObjectStorage)
    : outcome (list jsval) * DurableObjectStorage :=
  let (documents, s') := getAllDocuments (collectionName c) s in
  (filterM (fun doc => matchesQuery doc (query c)) documents, s').

(** [cursor.toArray], as [find] replaces it. The test reads [_documents];
    the result of [_execute] is stored in [documents]. *)
Definition toArray (c : Cursor) (s : DurableObjectStorage)
    : outcome (Cursor * list jsval) * DurableObjectStorage :=
  if match _documents c with
     | None => true                                  (* !cursor._documents *)
     | Some l => Nat.eqb (List.length l) 0           (* ._documents.length === 0 *)
     end
  then
    match _execute c s with
    | (Ok found, s') =>
        let c' := set_documents found c in
        (Ok (c', CursorImpl_toArray c'), s')
    | (Throw e, s') => (Throw e, s')
    end
  else (Ok (c, CursorImpl_toArray c), s).

(** [cursor.first()]: [this.toArray()] is the replaced method. *)
Definition first (c : Cursor) (s : DurableObjectStorage)
    : outcome (Cursor * jsval) * DurableObjectStorage :=
  match toArray c s with
  | (Ok (c', results), s') =>
      (Ok (c', match results with
               | doc :: _ => doc
               | [] => VNull
               end), s')
  | (Throw e, s') => (Throw e, s')
  end.

Definition findOne (name : string) (query : jsval) (s : DurableObjectStorage)
    : outcome jsval * DurableObjectStorage :=
  match first (find name query) s with
  | (Ok (_, doc), s') => (Ok doc, s')
  | (Throw e, s') => (Throw e, s')
  end.

(** [insertOne(document)]; [uuid] is the value of [crypto.randomUUID()]. *)
Definition insertOne (name : string) (document : jsval) (uuid : string)
    (s : DurableObjectStorage) : outcome string * DurableObjectStorage :=
  let docWithId := VObj (assign "_id" (VStr uuid) (spread document)) in
  match sql_insert uuid name (JSON_stringify docWithId) s with
  | (Ok _, s') => (Ok uuid, s')
  | (Throw e, s') => (Throw e, s')
  end.

Record UpdateResult : Type := mkUpdateResult {
  matchedCount : Z;
  modifiedCount : Z
}.

Definition updateOne (name : string) (query : jsval) (update : Update)
    (s : DurableObjectStorage) : outcome UpdateResult * DurableObjectStorage :=
  match findOne name query s with
  | (Throw e, s') => (Throw e, s')
  | (Ok document, s') =>
      if negb (truthy document) then (Ok (mkUpdateResult 0 0), s')
      else
        let id := js_get document "_id" in
        match applyUpdate document update with
        | Throw e => (Throw e, s')
        | Ok updatedDocument =>
            (Ok (mkUpdateResult 1 1),
             sql_update (JSON_stringify updatedDocument) id name s')
        end
  end.

(** [DELETE FROM documents WHERE id = ? AND collection = ?]. *)
Definition sql_delete (bound : jsval) (name : string)
    (s : DurableObjectStorage) : DurableObjectStorage :=
  mkStorage
    (filter (fun r => negb (row_selected bound name r)) (rows s))
    (executed s ++ [DELETE bound name]).

(** [(document as any)._id]: reading a property of null or undefined
    throws. *)
Definition js_member (v : jsval) (key : string) : outcome jsval :=
  match v with
  | VUndefined | VNull => Throw TypeError
  | _ => Ok (js_get v key)
  end.

Record DeleteResult : Type := mkDeleteResult {
  deletedCount : Z
}.

Definition deleteOne (name : string) (query : jsval) (s : DurableObjectStorage)
    : outcome DeleteResult * DurableObjectStorage :=
  match findOne name query s with
  | (Throw e, s') => (Throw e, s')
  | (Ok document, s') =>
      if negb (truthy document) then (Ok (mkDeleteResult 0), s')
      else
        let id := js_get document "_id" in
        (Ok (mkDeleteResult 1), sql_delete id name s')
  end.

(** The operations below write inside [storage.transaction]. Their result
    is the value returned with the storage after the grouping; what the
    storage holds after a grouping that threw is the host's matter and is
    not modelled. *)

(** [deleteMany(query)]. *)
Definition deleteMany (name : string) (query : jsval) (s : DurableObjectStorage)
    : outcome (DeleteResult * DurableObjectStorage) :=
  match toArray (find name query) s with
  | (Throw e, _) => Throw e
  | (Ok (_, documents), s') =>
      if Nat.eqb (List.length documents) 0 then Ok (mkDeleteResult 0, s')
      else
        ' (deletedCount, s'') <-
          foldM (fun '(deletedCount, s) document =>
                   id <- js_member document "_id" ;;
                   Ok (deletedCount + 1, sql_delete id name s))
                documents (0, s') ;;
        Ok (mkDeleteResult deletedCount, s'')
  end.

(** [updateMany(query, update)]: the match set is read before any write. *)
Definition updateMany (name : string) (query : jsval) (update : Update)
    (s : DurableObjectStorage) : outcome (UpdateResult * DurableObjectStorage) :=
  match toArray (find name query) s with
  | (Throw e, _) => Throw e
  | (Ok (_, documents), s') =>
      if Nat.eqb (List.length documents) 0 then Ok (mkUpdateResult 0 0, s')
      else
        ' (modifiedCount, s'') <-
          foldM (fun '(modifiedCount, s) document =>
                   id <- js_member document "_id" ;;
                   updatedDocument <- applyUpdate document update ;;
                   Ok (modifiedCount + 1,
                       sql_update (JSON_stringify updatedDocument) id name s))
                documents (0, s') ;;
        Ok (mkUpdateResult (Z.of_nat (List.length documents)) modifiedCount, s'')
  end.

(** [insertMany(documents)]; [randomUUID k] is the value of the call
    number [k] of [crypto.randomUUID()]. The result is the list [ids]. *)
Fixpoint insertMany_loop (name : string) (randomUUID : nat -> string) (k : nat)
    (documents : list jsval) (ids : list string) (s : DurableObjectStorage)
    : outcome (list string * DurableObjectStorage) :=
  match documents with
  | [] => Ok (ids, s)
  | document :: rest =>
      let id := randomUUID k in
      let docWithId := VObj (assign "_id" (VStr id) (spread document)) in
      match sql_insert id name (JSON_stringify docWithId) s with
      | (Throw e, _) => Throw e
      | (Ok _, s') => insertMany_loop name randomUUID (S k) rest (ids ++ [id])%list s'
      end
  end.

Definition insertMany (name : string) (documents : list jsval)
    (randomUUID : nat -> string) (s : DurableObjectStorage)
    : outcome (list string * DurableObjectStorage) :=
  insertMany_loop name randomUUID 0 documents [] s.

End Engine.

(** ** [applyUpdate] on a heap of objects

    [applyUpdate] above gives the content of the object it returns. The
    source computes it by assignments to objects, and [{ ...document }]
    copies one level only: the objects below the first level are shared by
    [document] and [result]. This module runs the same code on a heap, where
    an object is a location and an assignment changes the cell every holder
    of the location sees. The operands of an update are data supplied by the
    caller; an operand that is stored is written to fresh cells. *)

Module Heap.

Definition loc : Type := nat.

Inductive hval : Type :=
| HUndefined
| HNull
| HBool (b : bool)
| HNum (n : Z)
| HNaN
| HStr (s : string)
| HRef (l : loc).

Inductive cell : Type :=
| CObj (props : list (string * hval))
| CArr (elems : list hval).

Definition heap : Type := list cell.

Definition load (h : heap) (l : loc) : option cell := nth_error h l.

Fixpoint store (h : heap) (l : loc) (c : cell) : heap :=
  match h, l with
  | [], _ => []
  | _ :: r, O => c :: r
  | x :: r, S k => x :: store r k c
  end.

Definition alloc (h : heap) (c : cell) : heap * loc := ((h ++ [c])%list, List.length h).

(** The value a caller supplies, written to fresh cells. *)
Fixpoint alloc_value (h : heap) (v : jsval) : heap * hval :=
  match v with
  | VUndefined => (h, HUndefined)
  | VNull => (h, HNull)
  | VBool b => (h, HBool b)
  | VNum n => (h, HNum n)
  | VNaN => (h, HNaN)
  | VStr s => (h, HStr s)
  | VArr elems =>
      let (h1, cells) :=
        (fix each (h : heap) (l : list jsval) : heap * list hval :=
           match l with
           | [] => (h, [])
           | x :: r =>
               let (h1, hx) := alloc_value h x in
               let (h2, hr) := each h1 r in
               (h2, hx :: hr)
           end) h elems in
      let (h2, l) := alloc h1 (CArr cells) in (h2, HRef l)
  | VObj props =>
      let (h1, cells) :=
        (fix each (h : heap) (l : list (string * jsval)) : heap * list (string * hval) :=
           match l with
           | [] => (h, [])
           | (k, x) :: r =>
               let (h1, hx) := alloc_value h x in
               let (h2, hr) := each h1 r in
               (h2, (k, hx) :: hr)
           end) h props in
      let (h2, l) := alloc h1 (CObj cells) in (h2, HRef l)
  end.

(** The value held at [v], read down to [fuel] levels of nesting; [None]
    when the structure is deeper (a heap of [n] cells without a cycle is
    read in full with fuel [S n]). *)
Fixpoint read_value (fuel : nat) (h : heap) (v : hval) : option jsval :=
  match v with
  | HUndefined => Some VUndefined
  | HNull => Some VNull
  | HBool b => Some (VBool b)
  | HNum n => Some (VNum n)
  | HNaN => Some VNaN
  | HStr s => Some (VStr s)
  | HRef l =>
      match fuel with
      | O => None
      | S fuel' =>
          match load h l with
          | Some (CArr elems) =>
              option_map VArr
                ((fix each (l : list hval) : option (list jsval) :=
                    match l with
                    | [] => Some []
                    | x :: r =>
                        match read_value fuel' h x, each r with
                        | Some a, Some b => Some (a :: b)
                        | _, _ => None
                        end
                    end) elems)
          | Some (CObj props) =>
              option_map VObj
                ((fix each (l : list (string * hval)) : option (list (string * jsval)) :=
                    match l with
                    | [] => Some []
                    | (k, x) :: r =>
                        match read_value fuel' h x, each r with
                        | Some a, Some b => Some ((k, a) :: b)
                        | _, _ => None
                        end
                    end) props)
          | None => None
          end
      end
  end.

Definition read (h : heap) (v : hval) : option jsval :=
  read_value (S (List.length h)) h v.

Definition of_prim (v : jsval) : hval :=
  match v with
  | VNull => HNull
  | VBool b => HBool b
  | VNum n => HNum n
  | VNaN => HNaN
  | VStr s => HStr s
  | _ => HUndefined
  end.

Definition truthy (v : hval) : bool :=
  match v with
  | HUndefined | HNull | HNaN => false
  | HBool b => b
  | HNum n => negb (n =? 0)
  | HStr s => negb (String.eqb s "")
  | HRef _ => true
  end.

Definition or_default (v default : hval) : hval :=
  if truthy v then v else default.

Fixpoint lookup (key : string) (props : list (string * hval)) : option hval :=
  match props with
  | [] => None
  | (k, v) :: rest => if String.eqb k key then Some v else lookup key rest
  end.

Fixpoint assign (key : string) (value : hval) (props : list (string * hval))
    : list (string * hval) :=
  match props with
  | [] => [(key, value)]
  | (k, v) :: rest =>
      if String.eqb k key then (k, value) :: rest
      else (k, v) :: assign key value rest
  end.

Fixpoint remove_key (key : string) (props : list (string * hval))
    : list (string * hval) :=
  match props with
  | [] => []
  | (k, v) :: rest =>
      if String.eqb k key then rest else (k, v) :: remove_key key rest
  end.

Fixpoint replace_nth (i : nat) (value : hval) (l : list hval) : list hval :=
  match l, i with
  | [], _ => []
  | _ :: r, O => value :: r
  | x :: r, S j => x :: replace_nth j value r
  end.

Fixpoint chars (s : string) : list hval :=
  match s with
  | EmptyString => []
  | String c rest => HStr (String c EmptyString) :: chars rest
  end.

Definition indexed_get (l : list hval) (key : string) : hval :=
  match index_of_key key (List.length l) with
  | Some i => nth i l HUndefined
  | None =>
      if String.eqb key "length" then HNum (Z.of_nat (List.length l))
      else HUndefined
  end.

(** [current[part]]. *)
Definition js_get (h : heap) (current : hval) (part : string) : hval :=
  match current with
  | HRef l =>
      match load h l with
      | Some (CObj props) =>
          match lookup part props with
          | Some v => v
          | None => HUndefined
          end
      | Some (CArr elems) => indexed_get elems part
      | None => HUndefined
      end
  | HStr s => indexed_get (chars s) part
  | _ => HUndefined
  end.

(** [part in current]. *)
Definition js_in (h : heap) (part : string) (current : hval) : outcome bool :=
  match current with
  | HRef l =>
      match load h l with
      | Some (CObj props) =>
          Ok (match lookup part props with Some _ => true | None => false end)
      | Some (CArr elems) =>
          Ok (match index_of_key part (List.length elems) with
              | Some _ => true
              | None => String.eqb part "length"
              end)
      | None => Throw TypeError
      end
  | _ => Throw TypeError
  end.

(** [current[key] = value]: the cell of [current] changes. *)
Definition js_set (h : heap) (current : hval) (key : string) (value : hval)
    : outcome heap :=
  match current with
  | HRef l =>
      match load h l with
      | Some (CObj props) => Ok (store h l (CObj (assign key value props)))
      | Some (CArr elems) =>
          match index_of_key key (S (List.length elems)) with
          | Some i =>
              if Nat.eqb i (List.length elems)
              then Ok (store h l (CArr (elems ++ [value])))
              else Ok (store h l (CArr (replace_nth i value elems)))
          | None => Throw OutOfModel
          end
      | None => Throw TypeError
      end
  | _ => Throw TypeError
  end.

(** [delete current[key]]. *)
Definition js_delete (h : heap) (current : hval) (key : string) : outcome heap :=
  match current with
  | HRef l =>
      match load h l with
      | Some (CObj props) => Ok (store h l (CObj (remove_key key props)))
      | Some (CArr elems) =>
          match index_of_key key (List.length elems) with
          | Some _ => Throw OutOfModel
          | None => if String.eqb key "length" then Throw TypeError else Ok h
          end
      | None => Throw TypeError
      end
  | HStr s =>
      match index_of_key key (List.length (chars s)) with
      | Some _ => Throw TypeError
      | None => if String.eqb key "length" then Throw TypeError else Ok h
      end
  | HUndefined | HNull => Throw TypeError
  | _ => Ok h
  end.

Fixpoint get_parts (h : heap) (current : hval) (parts : list string) : hval :=
  match parts with
  | [] => current
  | part :: rest =>
      match current with
      | HNull | HUndefined => HUndefined
      | _ => get_parts h (js_get h current part) rest
      end
  end.

Definition getNestedProperty (h : heap) (obj : hval) (path : string) : hval :=
  get_parts h obj (split_dot path).

(** The loop of [setNestedProperty]: [current] walks down the objects of
    the heap, whoever else holds them. *)
Fixpoint set_parts (h : heap) (current : hval) (parts : list string) (value : hval)
    : outcome heap :=
  match parts with
  | [] => Ok h
  | [last] => js_set h current last value
  | part :: rest =>
      present <- js_in h part current ;;
      if present then set_parts h (js_get h current part) rest value
      else
        let (h1, fresh) := alloc h (CObj []) in
        h2 <- js_set h1 current part (HRef fresh) ;;      (* current[part] = {} *)
        set_parts h2 (js_get h2 current part) rest value
  end.

Definition setNestedProperty (h : heap) (obj : hval) (path : string) (value : hval)
    : outcome heap :=
  set_parts h obj (split_dot path) value.

Fixpoint delete_parts (h : heap) (current : hval) (parts : list string) : outcome heap :=
  match parts with
  | [] => Ok h
  | [last] => js_delete h current last
  | part :: rest =>
      present <- js_in h part current ;;
      if present then delete_parts h (js_get h current part) rest
      else Ok h
  end.

Definition deleteNestedProperty (h : heap) (obj : hval) (path : string) : outcome heap :=
  delete_parts h obj (split_dot path).

(** [Array.isArray(v)], with the elements. *)
Definition as_array (h : heap) (v : hval) : option (list hval) :=
  match v with
  | HRef l =>
      match load h l with
      | Some (CArr elems) => Some elems
      | _ => None
      end
  | _ => None
  end.

(** [{ ...document }]: a new object holding the same property values. *)
Definition spread (h : heap) (document : hval) : list (string * hval) :=
  match document with
  | HRef l =>
      match load h l with
      | Some (CObj props) => props
      | Some (CArr elems) =>
          (fix indexed (i : nat) (l : list hval) : list (string * hval) :=
             match l with
             | [] => []
             | x :: r => (index_key i, x) :: indexed (S i) r
             end) 0%nat elems
      | None => []
      end
  | _ => []
  end.

(** The value read for a comparison or an addition; a structure with a
    cycle cannot be converted. *)
Definition to_jsval (h : heap) (v : hval) : outcome jsval :=
  match read h v with
  | Some j => Ok j
  | None => Throw OutOfModel
  end.

(** The primitive held in [v], if [v] is not an object. *)
Definition prim_value (v : hval) : option jsval :=
  match v with
  | HUndefined => Some VUndefined
  | HNull => Some VNull
  | HBool b => Some (VBool b)
  | HNum n => Some (VNum n)
  | HNaN => Some VNaN
  | HStr s => Some (VStr s)
  | HRef _ => None
  end.

(** [currentValue.includes(value)] for an operand of the caller: an object
    of the document is never that operand. *)
Definition includes_operand (elems : list hval) (value : jsval) : bool :=
  existsb (fun x => match prim_value x with
                    | Some p => same_value_zero p value
                    | None => false
                    end) elems.

(** [v || []]. *)
Definition or_empty_array (h : heap) (v : hval) : heap * hval :=
  if truthy v then (h, v)
  else let (h', fresh) := alloc h (CArr []) in (h', HRef fresh).

Section WithRegExp.

Variable RegExp_test : string -> string -> option bool.

(** A new array holding [elems], stored at [field] of [result]. *)
Definition set_new_array (h : heap) (result : hval) (field : string) (elems : list hval)
    : outcome heap :=
  let (h1, fresh) := alloc h (CArr elems) in
  setNestedProperty h1 result field (HRef fresh).

Definition apply_field (operator : string) (result : hval) (h : heap)
    (entry : string * jsval) : outcome heap :=
  let (field, value) := entry in
  if String.eqb operator "$set" then
    let (h1, v) := alloc_value h value in
    setNestedProperty h1 result field v
  else if String.eqb operator "$unset" then deleteNestedProperty h result field
  else if String.eqb operator "$inc" then
    let currentValue := or_default (getNestedProperty h result field) (HNum 0) in
    current <- to_jsval h currentValue ;;
    setNestedProperty h result field (of_prim (js_add current value))
  else if String.eqb operator "$push" then
    let (h0, currentValue) := or_empty_array h (getNestedProperty h result field) in
    match as_array h0 currentValue with
    | Some elems =>
        let (h1, v) := alloc_value h0 value in
        set_new_array h1 result field (elems ++ [v])
    | None => Throw (InvalidFieldType "$push" field)
    end
  else if String.eqb operator "$pull" then
    match as_array h (getNestedProperty h result field) with
    | Some elems =>
        kept <- filterM (fun item =>
                  i <- to_jsval h item ;;
                  b <- matchesQuery RegExp_test (VObj [("item", i)]) (VObj [("item", value)]) ;;
                  Ok (negb b)) elems ;;
        set_new_array h result field kept
    | None => Throw (InvalidFieldType "$pull" field)
    end
  else if String.eqb operator "$addToSet" then
    let (h0, currentValue) := or_empty_array h (getNestedProperty h result field) in
    match as_array h0 currentValue with
    | Some elems =>
        if includes_operand elems value then Ok h0
        else
          let (h1, v) := alloc_value h0 value in
          set_new_array h1 result field (elems ++ [v])
    | None => Throw (InvalidFieldType "$addToSet" field)
    end
  else if String.eqb operator "$pop" then
    match as_array h (getNestedProperty h result field) with
    | Some elems =>
        if strict_eq value (VNum 1) then
          set_new_array h result field (Array_slice elems 0 (Some (-1)))
        else if strict_eq value (VNum (-1)) then
          set_new_array h result field (Array_slice elems 1 None)
        else Ok h
    | None => Throw (InvalidFieldType "$pop" field)
    end
  else Ok h.

(** [applyUpdate(document, update)]: the heap after the call, and the
    location of the object returned. *)
Definition applyUpdate (h : heap) (document : hval) (update : Update)
    : outcome (heap * hval) :=
  let (h0, result) := alloc h (CObj (spread h document)) in
  h' <- foldM (fun h '(operator, fields) =>
                 foldM (apply_field operator (HRef result)) fields h)
              update h0 ;;
  Ok (h', HRef result).

End WithRegExp.

End Heap.

(** ** An engine for the closed examples

    The patterns made of characters that are not metacharacters, with an
    optional [^] in front: such a pattern matches the subjects that contain
    its characters, at their start when it is anchored. Any other pattern is
    beyond this engine, which answers [None]; the examples use it so on
    ["("] only, an unterminated group, which every ECMAScript engine
    rejects with a [SyntaxError]. *)

Definition is_metacharacter (c : ascii) : bool :=
  existsb (Ascii.eqb c)
    ["\"; "^"; "$"; "."; "|"; "?"; "*"; "+"; "("; ")"; "["; "]"; "{"; "}"]%char.

Fixpoint has_metacharacter (s : string) : bool :=
  match s with
  | EmptyString => false
  | String c rest => is_metacharacter c || has_metacharacter rest
  end.

Definition contains (characters subject : string) : bool :=
  match String.index 0 characters subject with
  | Some _ => true
  | None => false
  end.

Definition literal_RegExp (pattern subject : string) : option bool :=
  match pattern with
  | String "^" characters =>
      if has_metacharacter characters then None
      else Some (String.prefix characters subject)
  | _ =>
      if has_metacharacter pattern then None
      else Some (contains pattern subject)
  end.

(** The value a promise resolves to, without the state it leaves. *)
Definition returned {A B S : Type} (r : outcome (A * B) * S) : outcome B :=
  match fst r with
  | Ok (_, b) => Ok b
  | Throw e => Throw e
  end.

(** ** The vocabulary of the properties *)

(** A store of two documents of the collection ["test"] and one of
    another collection, for the closed examples. *)
Definition Ann : jsval := VObj [("_id", VStr "1"); ("name", VStr "Ann"); ("value", VNum 10)].
Definition Bob : jsval := VObj [("_id", VStr "2"); ("name", VStr "Bob"); ("value", VNum 20)].
Definition Eve : jsval := VObj [("_id", VStr "3"); ("name", VStr "Eve"); ("value", VNum 30)].

Definition sample_storage : DurableObjectStorage :=
  mkStorage
    [mkStoredDocument "1" "test" Ann;
     mkStoredDocument "3" "other" Eve;
     mkStoredDocument "2" "test" Bob]
    [].

(** [v] is an object or an array, the values that hold properties. *)
Definition is_container (v : jsval) : bool :=
  match v with
  | VObj _ | VArr _ => true
  | _ => false
  end.

(** [Array.isArray(v)]. *)
Definition is_array (v : jsval) : bool :=
  match v with
  | VArr _ => true
  | _ => false
  end.

(** A document with a nested object and no [tags] field, and an update
    that uses every operator, for the closed examples of [applyUpdate]. *)
Definition Tom : jsval :=
  VObj [("_id", VStr "7"); ("name", VStr "Tom"); ("profile", VObj [("city", VStr "Oslo")])].

Definition every_operator : Update :=
  [("$set", [("profile.zip", VNum 150); ("tags", VArr [VStr "a"; VStr "b"; VStr "c"])]);
   ("$unset", [("name", VStr "")]);
   ("$inc", [("visits", VNum 2); ("visits", VNum 3)]);
   ("$push", [("tags", VStr "d"); ("profile.langs", VStr "no")]);
   ("$pull", [("tags", VObj [("$in", VArr [VStr "a"; VStr "d"])])]);
   ("$addToSet", [("tags", VStr "b"); ("tags", VStr "e")]);
   ("$pop", [("tags", VNum (-1)); ("profile.langs", VNum 1)])].

(** The rows [insertOne] writes: the payload is an object whose [_id] is
    the id of the row, and no two rows share an id. *)
Definition row_ok (r : StoredDocument) : Prop :=
  exists props, data r = VObj props /\ lookup "_id" props = Some (VStr (id r)).

Definition storage_ok (s : DurableObjectStorage) : Prop :=
  Forall row_ok (rows s) /\ NoDup (map id (rows s)).

(** [a] may stand before [b]: at the first sort key, in the order of the
    specification, where their values differ, the value of [a] is the
    smaller one for direction [1] and the greater one for [-1]. *)
Fixpoint sorted_before (spec : SortSpec) (a b : jsval) : Prop :=
  match spec with
  | [] => True
  | (key, direction) :: rest =>
      let valueA := getNestedProperty a key in
      let valueB := getNestedProperty b key in
      match direction with
      | Asc => js_lt valueA valueB = true
      | Desc => js_gt valueA valueB = true
      end \/
      (valueA = valueB /\ sorted_before rest a b)
  end.

(** The documents have equal values on every sort key. *)
Definition same_sort_keys (spec : SortSpec) (a b : jsval) : Prop :=
  Forall (fun entry => getNestedProperty a (fst entry) = getNestedProperty b (fst entry)) spec.

(** The values of a sort key can be ordered: they are all numbers, or all
    strings. *)
Definition orderable_key (docs : list jsval) (key : string) : Prop :=
  (forall d, In d docs -> exists n, getNestedProperty d key = VNum n) \/
  (forall d, In d docs -> exists s, getNestedProperty d key = VStr s).

Definition orderable (docs : list jsval) (spec : SortSpec) : Prop :=
  Forall (fun entry => orderable_key docs (fst entry)) spec.

(** On orderable values [<] is a strict total order. *)
Definition strict_total_on (docs : list jsval) (key : string) : Prop :=
  (forall a b, In a docs -> In b docs ->
     js_lt (getNestedProperty a key) (getNestedProperty b key) = false ->
     js_lt (getNestedProperty b key) (getNestedProperty a key) = false ->
     getNestedProperty a key = getNestedProperty b key) /\
  (forall a b c, In a docs -> In b docs -> In c docs ->
     js_lt (getNestedProperty a key) (getNestedProperty b key) = true ->
     js_lt (getNestedProperty b key) (getNestedProperty c key) = true ->
     js_lt (getNestedProperty a key) (getNestedProperty c key) = true).

(** The value the direction puts strictly first. *)
Definition strictly_first (d : direction) (valueA valueB : jsval) : bool :=
  match d with
  | Asc => js_lt valueA valueB
  | Desc => js_lt valueB valueA
  end.

(** A document with two sort keys, for the closed examples of [sort]. *)
Definition ranked (name : string) (group rank : Z) : jsval :=
  VObj [("name", VStr name); ("group", VNum group); ("rank", VNum rank)].

(** [P] holds of every element. *)
Fixpoint All {T : Type} (P : T -> Prop) (l : list T) : Prop :=
  match l with
  | [] => True
  | x :: rest => P x /\ All P rest
  end.

(** The engine compiles the pattern of a [$regex] operand. *)
Definition accepted (RegExp_test : string -> string -> option bool)
    (operatorValue : jsval) : Prop :=
  forall subject, exists b, RegExp_test (regex_pattern operatorValue) subject = Some b.

(** The operators of a field entry, and those under its [$not], have
    [$regex] operands the engine compiles. *)
Fixpoint operators_ok (RegExp_test : string -> string -> option bool) (value : jsval)
    : Prop :=
  match value with
  | VObj ops =>
      All (fun '(op, opValue) =>
             if String.eqb op "$regex" then accepted RegExp_test opValue
             else if String.eqb op "$not" then operators_ok RegExp_test opValue
             else True) ops
  | _ => True
  end.

(** A query that can be evaluated: it is not null or undefined, nor is
    any sub-query of its [$and], [$or] and [$nor] arrays, and the patterns
    of its [$regex] operands compile. *)
Fixpoint query_ok (RegExp_test : string -> string -> option bool) (query : jsval)
    : Prop :=
  match query with
  | VUndefined | VNull => False
  | VObj props =>
      All (fun '(key, value) =>
             if startsWith_dollar key then
               if String.eqb key "$and" || String.eqb key "$or" || String.eqb key "$nor"
               then match value with
                    | VArr subQueries => All (query_ok RegExp_test) subQueries
                    | _ => True
                    end
               else True
             else operators_ok RegExp_test value) props
  | VArr elems => All (operators_ok RegExp_test) elems
  | _ => True
  end.

(** The operators [matchesOperator] knows. *)
Definition known_operator (operator : string) : bool :=
  existsb (String.eqb operator)
    ["$eq"; "$gt"; "$gte"; "$lt"; "$lte"; "$ne"; "$in"; "$nin"; "$not";
     "$exists"; "$type"; "$regex"].

(** The rows the repository's tests put behind [sql.exec], all of the
    collection ["test"]. *)
Definition test_document (i name : string) (fields : list (string * jsval)) : jsval :=
  VObj ([("_id", VStr i); ("name", VStr name)] ++ fields).

Definition test_storage (documents : list (string * jsval)) : DurableObjectStorage :=
  mkStorage (map (fun entry => mkStoredDocument (fst entry) "test" (snd entry)) documents) [].

Definition two_documents : DurableObjectStorage :=
  test_storage [("1", test_document "1" "Document 1" [("value", VNum 10)]);
                ("2", test_document "2" "Document 2" [("value", VNum 20)])].

Definition three_documents : DurableObjectStorage :=
  test_storage [("1", test_document "1" "A" [("value", VNum 30)]);
                ("2", test_document "2" "B" [("value", VNum 20)]);
                ("3", test_document "3" "C" [("value", VNum 10)])].

Definition tagged_document : DurableObjectStorage :=
  test_storage [("1", test_document "1" "Document 1"
                        [("tags", VArr [VStr "tag1"; VStr "tag2"; VStr "tag3"])])].

(** Every object inside [v] has its keys once, as every JavaScript
    object has. *)
Fixpoint distinct_keys (v : jsval) : Prop :=
  match v with
  | VObj props =>
      NoDup (map fst props) /\ All (fun entry => distinct_keys (snd entry)) props
  | VArr elems => All distinct_keys elems
  | _ => True
  end.

(** [!b] of a result that may be thrown instead. *)
Definition negated (c : outcome bool) : outcome bool :=
  b <- c ;; Ok (negb b).

(** [a && b], where [b] is not evaluated when [a] is false. *)
Definition and_then (a b : outcome bool) : outcome bool :=
  holds <- a ;; if holds then b else Ok false.

(** The document matches the query: the evaluation returns [true]. *)
Definition matches (RegExp_test : string -> string -> option bool)
    (query document : jsval) : bool :=
  match matchesQuery RegExp_test document query with
  | Ok true => true
  | _ => false
  end.

(** The payloads of the rows of a collection, in the order of the table. *)
Definition documents_of (name : string) (s : DurableObjectStorage) : list jsval :=
  map data (filter (fun r => String.eqb (collection r) name) (rows s)).

(** The cursor without [skip] and [limit]. *)
Definition unsliced (c : Cursor) : Cursor :=
  mkCursor (documents c) (_documents c) None None (_sort c) (collectionName c) (query c).

(** The payload [insertOne] and [insertMany] store for a document. *)
Definition stored_payload (document : jsval) (i : string) : json :=
  JSON_stringify (VObj (assign "_id" (VStr i) (spread document))).

(** The rows [insertMany] adds, the call number [k] of [randomUUID] being
    the first it makes. *)
Fixpoint inserted_rows (name : string) (randomUUID : nat -> string) (k : nat)
    (documents : list jsval) : list StoredDocument :=
  match documents with
  | [] => []
  | document :: rest =>
      mkStoredDocument (randomUUID k) name (stored_payload document (randomUUID k))
        :: inserted_rows name randomUUID (S k) rest
  end.

(** The payload an update leaves in the row of a document it applies to. *)
Definition updated_payload (RegExp_test : string -> string -> option bool)
    (update : Update) (document : jsval) : json :=
  match applyUpdate RegExp_test document update with
  | Ok updatedDocument => JSON_stringify updatedDocument
  | Throw _ => document
  end.

(** The row holds a document of the collection that matches the query. *)
Definition row_matches (RegExp_test : string -> string -> option bool) (name : string)
    (query : jsval) (r : StoredDocument) : bool :=
  String.eqb (collection r) name && matches RegExp_test query (data r).

(** The statement [... WHERE id = ? AND collection = ?] bound to the
    [_id] of a document selects the row. *)
Definition selects (name : string) (document : jsval) (r : StoredDocument) : bool :=
  row_selected (js_get document "_id") name r.

(** The row after the [UPDATE] that [updateMany] executes for a document. *)
Definition rewrite_row (RegExp_test : string -> string -> option bool) (name : string)
    (update : Update) (r : StoredDocument) (document : jsval) : StoredDocument :=
  if selects name document r
  then mkStoredDocument (id r) (collection r) (updated_payload RegExp_test update document)
  else r.

(** The operators [applyUpdate] has a [case] for. *)
Definition update_operator (operator : string) : bool :=
  existsb (String.eqb operator)
    ["$set"; "$unset"; "$inc"; "$push"; "$pull"; "$addToSet"; "$pop"].

(** [v] is an object that is not an array. *)
Definition is_object (v : jsval) : bool :=
  match v with
  | VObj _ => true
  | _ => false
  end.

(** Two ids for the closed examples of [insertMany]. *)
Definition two_uuids (k : nat) : string :=
  match k with
  | O => "8"
  | _ => "9"
  end.

(** A store whose second document has no array under [tags], for the
    closed examples of [updateMany]. *)
Definition Kim : jsval := VObj [("_id", VStr "1"); ("tags", VArr [VStr "a"])].
Definition Lee : jsval := VObj [("_id", VStr "2"); ("tags", VStr "a")].

Definition tags_storage : DurableObjectStorage :=
  mkStorage [mkStoredDocument "1" "test" Kim; mkStoredDocument "2" "test" Lee] [].

(** * Properties *)

(** ** Boolean composition *)

(** C2, as the code has it: [$and] over no sub-queries holds. [every] of an
    empty array is true, so the entry passes and the loop goes on. *)
Theorem and_empty_matches :
  forall (RegExp_test : string -> string -> option bool) (D : jsval),
    matchesQuery RegExp_test D (VObj [("$and", VArr [])]) = Ok true.
Proof. intros RegExp_test D. reflexivity. Qed.

(** C2, against the specification, which has [{$and: []}] fail: on the
    empty document it evaluates to [true]. *)
Lemma and_empty_not_false :
  matchesQuery literal_RegExp (VObj []) (VObj [("$and", VArr [])]) = Ok true.
Proof. reflexivity. Qed.

(** The neighbours of C2: [$or] over no sub-queries fails, [$nor] holds. *)
Lemma or_nor_empty :
  forall (RegExp_test : string -> string -> option bool) (D : jsval),
    matchesQuery RegExp_test D (VObj [("$or", VArr [])]) = Ok false /\
    matchesQuery RegExp_test D (VObj [("$nor", VArr [])]) = Ok true.
Proof. intros; split; reflexivity. Qed.

(** ** [$ne] on a missing field *)

Lemma strict_eq_undefined_l :
  forall v, v <> VUndefined -> strict_eq VUndefined v = false.
Proof. intros v Hv. destruct v; try reflexivity. now elim Hv. Qed.

(** C10: a document whose value at the field path [f] is undefined
    matches [{f: {$ne: v}}] for every defined [v]. A field path is a key
    that does not start with [$]. *)
Theorem ne_matches_missing_field :
  forall (RegExp_test : string -> string -> option bool) (D : jsval)
         (f : string) (v : jsval),
    startsWith_dollar f = false ->
    getNestedProperty D f = VUndefined ->
    v <> VUndefined ->
    matchesQuery RegExp_test D (VObj [(f, VObj [("$ne", v)])]) = Ok true.
Proof.
  intros RegExp_test D f v Hf Hget Hv.
  cbn [matchesQuery every]. rewrite Hf.
  cbn [matchesField every bind]. unfold matchesOperator. cbn [String.eqb Ascii.eqb Bool.eqb].
  rewrite Hget, (strict_eq_undefined_l v Hv). reflexivity.
Qed.

Lemma ne_matches_missing_field_witness :
  matchesQuery literal_RegExp
    (VObj [("name", VStr "Ann"); ("address", VNull)])
    (VObj [("address.city", VObj [("$ne", VStr "Oslo")])]) = Ok true.
Proof.
  apply (ne_matches_missing_field literal_RegExp
           (VObj [("name", VStr "Ann"); ("address", VNull)])
           "address.city" (VStr "Oslo")).
  - reflexivity.
  - reflexivity.
  - discriminate.
Defined.

(** ** The cursor *)

(** The wrapper of [toArray] on a cursor nothing assigned [_documents] of:
    it always runs [_execute]. *)
Lemma toArray_executes :
  forall RegExp_test c s,
    _documents c = None ->
    toArray RegExp_test c s =
    match _execute RegExp_test c s with
    | (Ok found, s') =>
        (Ok (set_documents found c, CursorImpl_toArray (set_documents found c)), s')
    | (Throw e, s') => (Throw e, s')
    end.
Proof. intros RegExp_test c s H. unfold toArray. rewrite H. reflexivity. Qed.

(** No method assigns [_documents]: it is undefined on every cursor that
    [find] made, whatever was called on it. *)
Lemma _documents_never_assigned :
  forall RegExp_test name q n spec docs c s c' out s',
    _documents (find name q) = None /\
    _documents (limit n c) = _documents c /\
    _documents (skip n c) = _documents c /\
    _documents (sort spec c) = _documents c /\
    _documents (set_documents docs c) = _documents c /\
    (toArray RegExp_test c s = (Ok (c', out), s') -> _documents c' = _documents c).
Proof.
  intros. repeat split; try reflexivity.
  unfold toArray. destruct (_documents c) as [l|] eqn:E.
  - destruct (Nat.eqb (List.length l) 0).
    + destruct (_execute RegExp_test c s) as [[found|e] s1]; [|discriminate].
      intros H; inversion H; subst. exact E.
    + intros H; inversion H; subst. exact E.
  - destruct (_execute RegExp_test c s) as [[found|e] s1]; [|discriminate].
    intros H; inversion H; subst. exact E.
Qed.

Lemma _execute_scans :
  forall RegExp_test c s, scans (snd (_execute RegExp_test c s)) = S (scans s).
Proof.
  intros. unfold _execute, getAllDocuments, scans. cbn [snd executed].
  rewrite filter_app, length_app. cbn. lia.
Qed.

(** Every [toArray] on a cursor of [find] scans the table once more. *)
Lemma toArray_scans :
  forall RegExp_test c s,
    _documents c = None ->
    scans (snd (toArray RegExp_test c s)) = S (scans s).
Proof.
  intros RegExp_test c s H. rewrite (toArray_executes _ _ _ H).
  pose proof (_execute_scans RegExp_test c s) as E.
  destruct (_execute RegExp_test c s) as [[found|e] s1]; exact E.
Qed.

(** C3, the code at a failing input: two [toArray] calls on one cursor
    scan the table twice. The wrapper tests [_documents], the match set is
    kept in [documents]. *)
Theorem toArray_twice_scans_twice :
  match toArray literal_RegExp (find "test" (VObj [])) sample_storage with
  | (Ok (cursor, first_result), s1) =>
      match toArray literal_RegExp cursor s1 with
      | (Ok (_, second_result), s2) =>
          first_result = [Ann; Bob] /\ second_result = [Ann; Bob] /\
          scans sample_storage = 0%nat /\ scans s1 = 1%nat /\ scans s2 = 2%nat
      | (Throw _, _) => False
      end
  | (Throw _, _) => False
  end.
Proof. vm_compute. repeat split. Qed.

(** [count] before any terminal call: the cursor holds no documents yet,
    whatever the store, the query and the modifiers. *)
Lemma count_before_toArray :
  forall name q k m, count (skip k (limit m (find name q))) = 0.
Proof. reflexivity. Qed.

(** After [toArray], [count] is the size of the match set, whatever [skip]
    and [limit] are. *)
Lemma count_after_toArray :
  forall RegExp_test name q k m s found s',
    _execute RegExp_test (find name q) s = (Ok found, s') ->
    exists c' page,
      toArray RegExp_test (skip k (limit m (find name q))) s = (Ok (c', page), s') /\
      count c' = Z.of_nat (List.length found).
Proof.
  intros RegExp_test name q k m s found s' H.
  rewrite toArray_executes by reflexivity.
  change (_execute RegExp_test (skip k (limit m (find name q))) s)
    with (_execute RegExp_test (find name q) s).
  rewrite H. eexists; eexists; split; reflexivity.
Qed.

(** C1, the code at a failing input: two documents match, and [count] on
    the cursor, paginated or not, answers [0] until [toArray] has run. *)
Theorem count_without_toArray_is_zero :
  returned (toArray literal_RegExp (find "test" (VObj [])) sample_storage)
    = Ok [Ann; Bob] /\
  count (find "test" (VObj [])) = 0 /\
  count (skip 1 (limit 1 (find "test" (VObj [])))) = 0 /\
  match toArray literal_RegExp (skip 1 (limit 1 (find "test" (VObj [])))) sample_storage with
  | (Ok (cursor, page), _) => page = [Bob] /\ count cursor = 2
  | (Throw _, _) => False
  end.
Proof. vm_compute. repeat split. Qed.

(** C9: a limit of [0] limits nothing and a skip of [0] skips nothing:
    [toArray] returns the whole match set. The tests [if (this._limit)] and
    [if (this._skip)] read [0] as they read an unset modifier. *)
Theorem zero_limit_and_skip_are_unset :
  forall RegExp_test name q s found s',
    _execute RegExp_test (find name q) s = (Ok found, s') ->
    returned (toArray RegExp_test (limit 0 (find name q)) s) = Ok found /\
    returned (toArray RegExp_test (skip 0 (find name q)) s) = Ok found /\
    returned (toArray RegExp_test (skip 0 (limit 0 (find name q))) s) = Ok found /\
    forall c,
      CursorImpl_toArray (limit 0 c) =
      CursorImpl_toArray (mkCursor (documents c) (_documents c) None (_skip c) (_sort c)
                                   (collectionName c) (query c)) /\
      CursorImpl_toArray (skip 0 c) =
      CursorImpl_toArray (mkCursor (documents c) (_documents c) (_limit c) None (_sort c)
                                   (collectionName c) (query c)).
Proof.
  intros RegExp_test name q s found s' H.
  assert (E : forall c, _documents c = None -> collectionName c = collectionName (find name q) ->
                        query c = query (find name q) ->
                        _execute RegExp_test c s = (Ok found, s')).
  { intros c _ Hn Hq. unfold _execute in *. rewrite Hn, Hq. exact H. }
  repeat split.
  - rewrite toArray_executes by reflexivity.
    rewrite (E (limit 0 (find name q))) by reflexivity. reflexivity.
  - rewrite toArray_executes by reflexivity.
    rewrite (E (skip 0 (find name q))) by reflexivity. reflexivity.
  - rewrite toArray_executes by reflexivity.
    rewrite (E (skip 0 (limit 0 (find name q)))) by reflexivity. reflexivity.
Qed.

Lemma zero_limit_and_skip_are_unset_witness :
  returned (toArray literal_RegExp (limit 0 (find "test" (VObj []))) sample_storage)
    = Ok [Ann; Bob] /\
  returned (toArray literal_RegExp (skip 0 (find "test" (VObj []))) sample_storage)
    = Ok [Ann; Bob].
Proof.
  destruct (zero_limit_and_skip_are_unset literal_RegExp "test" (VObj [])
              sample_storage [Ann; Bob]
              (mkStorage (rows sample_storage) [SELECT "test"]))
    as (H1 & H2 & _).
  - reflexivity.
  - split; [exact H1 | exact H2].
Defined.

(** ** Mutation *)

(** *** Reading back what [setNestedProperty] wrote *)

Lemma bind_Ok_inv :
  forall {A B : Type} (c : outcome A) (k : A -> outcome B) (b : B),
    bind c k = Ok b -> exists a, c = Ok a /\ k a = Ok b.
Proof. intros A B [a|e] k b H; [exists a; auto | discriminate]. Qed.

Lemma lookup_assign_same :
  forall key v props, lookup key (assign key v props) = Some v.
Proof.
  intros key v props. induction props as [|[k x] rest IH]; cbn.
  - now rewrite String.eqb_refl.
  - destruct (String.eqb k key) eqn:E; cbn; rewrite E; auto.
Qed.

Lemma find_snoc :
  forall {A : Type} (f : A -> bool) (l : list A) (x : A),
    List.find f (l ++ [x]) =
    match List.find f l with
    | Some y => Some y
    | None => if f x then Some x else None
    end.
Proof.
  intros A f l x. induction l as [|y r IH]; cbn; [reflexivity|].
  destruct (f y); auto.
Qed.

Lemma index_of_key_bound :
  forall key n i, index_of_key key n = Some i -> (i < n)%nat.
Proof.
  intros key n i H. apply find_some in H. destruct H as [H _].
  apply in_seq in H. lia.
Qed.

Lemma index_of_key_step :
  forall key n,
    index_of_key key (S n) =
    match index_of_key key n with
    | Some i => Some i
    | None => if String.eqb (index_key n) key then Some n else None
    end.
Proof. intros key n. unfold index_of_key. rewrite seq_S, find_snoc. reflexivity. Qed.

Lemma nth_replace_nth :
  forall i v l, (i < List.length l)%nat -> nth i (replace_nth i v l) VUndefined = v.
Proof.
  intros i v l. revert i. induction l as [|x r IH]; intros [|i] H; cbn in *; try lia.
  - reflexivity.
  - apply IH. lia.
Qed.

Lemma length_replace_nth :
  forall i v l, List.length (replace_nth i v l) = List.length l.
Proof.
  intros i v l. revert i. induction l as [|x r IH]; intros [|i]; cbn; auto.
Qed.

(** [current[key] = value; current[key]] reads [value]. *)
Lemma js_get_js_set :
  forall current key v current',
    js_set current key v = Ok current' -> js_get current' key = v.
Proof.
  intros current key v current' H. destruct current; try discriminate; cbn [js_set] in H.
  - destruct (index_of_key key (S (List.length elems))) as [i|] eqn:E; [|discriminate].
    destruct (Nat.eqb i (List.length elems)) eqn:Ei; inversion H; subst; clear H;
      cbn [js_get].
    + apply Nat.eqb_eq in Ei. subst i. unfold indexed_get.
      rewrite length_app, Nat.add_comm. cbn [List.length Nat.add]. rewrite E.
      rewrite app_nth2 by lia. now rewrite Nat.sub_diag.
    + apply Nat.eqb_neq in Ei. unfold indexed_get. rewrite length_replace_nth.
      pose proof (index_of_key_bound _ _ _ E) as Hb.
      rewrite index_of_key_step in E.
      destruct (index_of_key key (List.length elems)) as [j|] eqn:Ej.
      * inversion E; subst. apply nth_replace_nth. eapply index_of_key_bound; eauto.
      * destruct (String.eqb (index_key (List.length elems)) key); inversion E; lia.
  - inversion H; subst. cbn [js_get]. now rewrite lookup_assign_same.
Qed.

(** An object the loop went through holds, under [part], what was put back. *)
Lemma js_get_put_back :
  forall current part next,
    (exists props, current = VObj props) \/
    (exists elems i, current = VArr elems /\ index_of_key part (List.length elems) = Some i) ->
    js_get (put_back current part next) part = next.
Proof.
  intros current part next [[props ->] | [elems [i [-> E]]]]; cbn [put_back js_get].
  - now rewrite lookup_assign_same.
  - rewrite E. cbn [js_get]. unfold indexed_get. rewrite length_replace_nth, E.
    apply nth_replace_nth. eapply index_of_key_bound; eauto.
Qed.

Lemma set_parts_needs_object :
  forall current parts v current',
    parts <> [] -> set_parts current parts v = Ok current' ->
    (exists props, current = VObj props) \/ (exists elems, current = VArr elems).
Proof.
  intros current parts v current' Hne H.
  destruct parts as [|part rest]; [congruence|].
  destruct current; eauto; destruct rest; discriminate.
Qed.


Lemma js_set_container :
  forall current key v current',
    js_set current key v = Ok current' ->
    is_container current = true /\ is_container current' = true.
Proof.
  intros current key v current' H. destruct current; try discriminate; cbn [js_set] in H.
  - destruct (index_of_key key (S (List.length elems))); [|discriminate].
    destruct (Nat.eqb n (List.length elems)); inversion H; auto.
  - inversion H; auto.
Qed.

Lemma put_back_container :
  forall current part next,
    is_container current = true -> is_container (put_back current part next) = true.
Proof.
  intros current part next H. destruct current; try discriminate; cbn [put_back]; auto.
  destruct (index_of_key part (List.length elems)); auto.
Qed.

Lemma js_in_container :
  forall part current b, js_in part current = Ok b -> is_container current = true.
Proof. intros part current b H. destruct current; try discriminate; auto. Qed.

Lemma get_parts_container :
  forall current part rest,
    is_container current = true ->
    get_parts current (part :: rest) = get_parts (js_get current part) rest.
Proof. intros current part rest H. destruct current; try discriminate; reflexivity. Qed.

Lemma set_parts_container :
  forall parts current v current',
    parts <> [] -> set_parts current parts v = Ok current' ->
    is_container current = true /\ is_container current' = true.
Proof.
  intros parts current v current' Hne H.
  destruct parts as [|part rest]; [congruence|]. clear Hne.
  destruct rest as [|p2 rest].
  - cbn [set_parts] in H. eapply js_set_container; eauto.
  - cbn [set_parts] in H. apply bind_Ok_inv in H. destruct H as [present [Hin H]].
    pose proof (js_in_container _ _ _ Hin) as Hc. split; [exact Hc|].
    destruct present.
    + apply bind_Ok_inv in H. destruct H as [next [_ H]]. inversion H.
      now apply put_back_container.
    + apply bind_Ok_inv in H. destruct H as [c1 [H1 H]].
      apply bind_Ok_inv in H. destruct H as [next [_ H]]. inversion H.
      apply put_back_container. eapply js_set_container; eauto.
Qed.

(** A [part] that is [in] an array and under which the loop could go on
    is one of its indices. *)
Lemma js_in_true_cases :
  forall part current,
    js_in part current = Ok true ->
    is_container (js_get current part) = true ->
    (exists props, current = VObj props) \/
    (exists elems i, current = VArr elems /\ index_of_key part (List.length elems) = Some i).
Proof.
  intros part current Hin Hc. destruct current; try discriminate; eauto.
  right. cbn [js_in] in Hin. cbn [js_get] in Hc. unfold indexed_get in Hc.
  destruct (index_of_key part (List.length elems)) as [i|] eqn:E; eauto.
  destruct (String.eqb part "length"); discriminate.
Qed.

(** [setNestedProperty(obj, path, value)] followed by
    [getNestedProperty(obj, path)] reads [value]. *)
Lemma get_after_set :
  forall parts current v current',
    parts <> [] ->
    set_parts current parts v = Ok current' ->
    get_parts current' parts = v.
Proof.
  induction parts as [|part rest IH]; intros current v current' Hne H; [congruence|].
  destruct (set_parts_container _ _ _ _ Hne H) as [Hc Hc'].
  rewrite get_parts_container by exact Hc'.
  destruct rest as [|p2 rest].
  - cbn [set_parts] in H. cbn [get_parts]. eapply js_get_js_set; eauto.
  - assert (Hne2 : p2 :: rest <> []) by discriminate.
    cbn [set_parts] in H. apply bind_Ok_inv in H. destruct H as [present [Hin H]].
    destruct present.
    + apply bind_Ok_inv in H. destruct H as [next [Hnext H]]. inversion H; subst; clear H.
      rewrite js_get_put_back.
      * exact (IH _ _ _ Hne2 Hnext).
      * apply js_in_true_cases; [exact Hin|].
        exact (proj1 (set_parts_container _ _ _ _ Hne2 Hnext)).
    + apply bind_Ok_inv in H. destruct H as [c1 [H1 H]].
      apply bind_Ok_inv in H. destruct H as [next [Hnext H]]. inversion H; subst; clear H.
      rewrite js_get_put_back.
      * exact (IH _ _ _ Hne2 Hnext).
      * pose proof (js_get_js_set _ _ _ _ H1) as Hg.
        destruct c1; try (apply js_set_container in H1; destruct H1; discriminate); eauto.
        right. cbn [js_get] in Hg. unfold indexed_get in Hg.
        destruct (index_of_key part (List.length elems)) as [i|] eqn:E; eauto.
        destruct (String.eqb part "length"); discriminate.
Qed.

(** *** [$push] and [$pull] *)

Lemma bind_Ok_r : forall {A : Type} (c : outcome A), bind c Ok = c.
Proof. intros A [a|e]; reflexivity. Qed.

(** An update of one operator on one field is one step of the loop, on
    the copy of the document. *)
Lemma applyUpdate_single :
  forall RegExp_test props operator field value,
    applyUpdate RegExp_test (VObj props) [(operator, [(field, value)])] =
    apply_field RegExp_test operator (VObj props) (field, value).
Proof.
  intros. unfold applyUpdate. cbn [foldM spread Object_entries].
  rewrite !bind_Ok_r. reflexivity.
Qed.

Lemma apply_field_push :
  forall RegExp_test result field value,
    apply_field RegExp_test "$push" result (field, value) =
    match or_default (getNestedProperty result field) (VArr []) with
    | VArr currentValue => setNestedProperty result field (VArr (currentValue ++ [value]))
    | _ => Throw (InvalidFieldType "$push" field)
    end.
Proof. reflexivity. Qed.

Lemma apply_field_pull_not_array :
  forall RegExp_test result field value,
    is_array (getNestedProperty result field) = false ->
    apply_field RegExp_test "$pull" result (field, value) =
    Throw (InvalidFieldType "$pull" field).
Proof.
  intros RegExp_test result field value H.
  unfold apply_field. cbn [String.eqb Ascii.eqb Bool.eqb].
  destruct (getNestedProperty result field); try reflexivity. discriminate.
Qed.




(** [$push] on a path with no value can still fail, though not with
    [InvalidFieldType]: the assignment goes through [null]. *)
Lemma push_through_null_is_a_TypeError :
  getNestedProperty (VObj [("profile", VNull)]) "profile.tags" = VUndefined /\
  applyUpdate literal_RegExp (VObj [("profile", VNull)])
    [("$push", [("profile.tags", VStr "t1")])] = Throw TypeError.
Proof. split; reflexivity. Qed.

(** *** The argument of [applyUpdate] *)

(** C4, the code at a failing input: [applyUpdate] with a dotted path
    changes the document it was given. [{ ...document }] copies the first
    level; [setNestedProperty] walks from the copy into the object that
    [document.profile] still is, and assigns there. *)
Theorem applyUpdate_changes_its_argument :
  let (h, document) := Heap.alloc_value [] Tom in
  match Heap.applyUpdate literal_RegExp h document
          [("$set", [("profile.city", VStr "Rome")])] with
  | Ok (h', result) =>
      Heap.read h document = Some Tom /\
      Heap.read h' result =
        Some (VObj [("_id", VStr "7"); ("name", VStr "Tom");
                    ("profile", VObj [("city", VStr "Rome")])]) /\
      Heap.read h' document =
        Some (VObj [("_id", VStr "7"); ("name", VStr "Tom");
                    ("profile", VObj [("city", VStr "Rome")])])
  | Throw _ => False
  end.
Proof. vm_compute. repeat split. Qed.

(** An assignment to a field of the first level stays in the copy. *)
Lemma applyUpdate_first_level_keeps_argument :
  let (h, document) := Heap.alloc_value [] Tom in
  match Heap.applyUpdate literal_RegExp h document
          [("$set", [("name", VStr "Tim")])] with
  | Ok (h', result) =>
      Heap.read h' result =
        Some (VObj [("_id", VStr "7"); ("name", VStr "Tim");
                    ("profile", VObj [("city", VStr "Oslo")])]) /\
      Heap.read h' document = Some Tom
  | Throw _ => False
  end.
Proof. vm_compute. repeat split. Qed.

(** [$push] on a dotted path adds the field to the shared object too. *)
Lemma applyUpdate_push_changes_its_argument :
  let (h, document) := Heap.alloc_value [] Tom in
  match Heap.applyUpdate literal_RegExp h document
          [("$push", [("profile.tags", VStr "t1")])] with
  | Ok (h', result) =>
      Heap.read h' document =
        Some (VObj [("_id", VStr "7"); ("name", VStr "Tom");
                    ("profile", VObj [("city", VStr "Oslo"); ("tags", VArr [VStr "t1"])])])
  | Throw _ => False
  end.
Proof. vm_compute. repeat split. Qed.

(** The content of the object returned on the heap is the value
    [applyUpdate] computes, on an update that uses every operator. *)
Lemma heap_content_agrees_example :
  let (h, document) := Heap.alloc_value [] Tom in
  match Heap.applyUpdate literal_RegExp h document every_operator with
  | Ok (h', result) =>
      Some (Heap.read h' result) =
      match applyUpdate literal_RegExp Tom every_operator with
      | Ok content => Some (Some content)
      | Throw _ => None
      end /\
      applyUpdate literal_RegExp Tom every_operator =
      Ok (VObj [("_id", VStr "7");
                ("profile", VObj [("city", VStr "Oslo"); ("zip", VNum 150);
                                  ("langs", VArr [])]);
                ("tags", VArr [VStr "c"; VStr "e"]);
                ("visits", VNum 5)])
  | Throw _ => False
  end.
Proof. vm_compute. repeat split. Qed.

(** ** [updateOne] *)

Lemma filterM_In :
  forall {A : Type} (f : A -> outcome bool) (l kept : list A) (x : A),
    filterM f l = Ok kept -> In x kept -> In x l.
Proof.
  intros A f l. induction l as [|y r IH]; intros kept x H Hin; cbn in H.
  - inversion H; subst. exact Hin.
  - apply bind_Ok_inv in H. destruct H as [keep [_ H]].
    apply bind_Ok_inv in H. destruct H as [r' [Hr H]]. inversion H; subst; clear H.
    destruct keep.
    + destruct Hin as [->|Hin]; [now left | right; eauto].
    + right; eauto.
Qed.

Lemma NoDup_map_injective :
  forall {A B : Type} (f : A -> B) (l : list A) (x y : A),
    NoDup (map f l) -> In x l -> In y l -> f x = f y -> x = y.
Proof.
  intros A B f l. induction l as [|a r IH]; intros x y Hnd Hx Hy E; [contradiction|].
  cbn in Hnd. inversion Hnd as [|? ? Hnotin Hnd']; subst.
  destruct Hx as [->|Hx], Hy as [->|Hy]; auto.
  - exfalso. apply Hnotin. rewrite E. now apply in_map.
  - exfalso. apply Hnotin. rewrite <- E. now apply in_map.
Qed.

(** What [findOne] finds, from the result of the scan and the filter. *)
Lemma findOne_found :
  forall RegExp_test name q s found s',
    _execute RegExp_test (find name q) s = (Ok found, s') ->
    findOne RegExp_test name q s =
    (Ok (match found with doc :: _ => doc | [] => VNull end), s').
Proof.
  intros RegExp_test name q s found s' H.
  unfold findOne, first. rewrite toArray_executes by reflexivity. rewrite H. reflexivity.
Qed.

Lemma _execute_rows :
  forall RegExp_test c s r s',
    _execute RegExp_test c s = (r, s') -> rows s' = rows s.
Proof. intros RegExp_test c s r s' H. unfold _execute in H. inversion H. reflexivity. Qed.

(** A document the scan of a collection found is the payload of one of
    its rows. *)
Lemma _execute_from_row :
  forall RegExp_test name q s found s' doc,
    _execute RegExp_test (find name q) s = (Ok found, s') ->
    In doc found ->
    exists r, In r (rows s) /\ collection r = name /\ data r = doc.
Proof.
  intros RegExp_test name q s found s' doc H Hin.
  unfold _execute in H. cbn in H. inversion H as [[Hf Hs]]. clear H Hs.
  apply (filterM_In _ _ _ _ Hf) in Hin.
  apply in_map_iff in Hin. destruct Hin as [r [Hd Hr]].
  apply filter_In in Hr. destruct Hr as [Hr Hc]. apply String.eqb_eq in Hc.
  exists r. auto.
Qed.

(** C8, as the code has it. When the evaluation of the query over the
    stored documents does not fail: with no match, [updateOne] returns
    [{0, 0}] and writes nothing; otherwise it applies the update to the
    first match, and when that succeeds it overwrites the payload of the row
    of that document, and of no other row, and returns [{1, 1}], while a
    failure of the update is the failure of [updateOne], which then writes
    nothing. The counts of a result are always equal. *)
Theorem updateOne_result :
  forall (RegExp_test : string -> string -> option bool) (name : string)
         (q : jsval) (u : Update) (s : DurableObjectStorage)
         (found : list jsval) (s1 : DurableObjectStorage),
    storage_ok s ->
    _execute RegExp_test (find name q) s = (Ok found, s1) ->
    rows s1 = rows s /\
    match found with
    | [] => updateOne RegExp_test name q u s = (Ok (mkUpdateResult 0 0), s1)
    | document :: _ =>
        match applyUpdate RegExp_test document u with
        | Throw e => updateOne RegExp_test name q u s = (Throw e, s1)
        | Ok updatedDocument =>
            exists i s2,
              updateOne RegExp_test name q u s = (Ok (mkUpdateResult 1 1), s2) /\
              In (mkStoredDocument i name document) (rows s) /\
              rows s2 =
                map (fun r => if String.eqb (id r) i
                              then mkStoredDocument i name (JSON_stringify updatedDocument)
                              else r) (rows s)
        end
    end /\
    forall result s', updateOne RegExp_test name q u s = (Ok result, s') ->
                      matchedCount result = modifiedCount result.
Proof.
  intros RegExp_test name q u s found s1 [Hrows Hnd] Hexec.
  pose proof (_execute_rows _ _ _ _ _ Hexec) as Hs1.
  assert (Hcase :
    match found with
    | [] => updateOne RegExp_test name q u s = (Ok (mkUpdateResult 0 0), s1)
    | document :: _ =>
        match applyUpdate RegExp_test document u with
        | Throw e => updateOne RegExp_test name q u s = (Throw e, s1)
        | Ok updatedDocument =>
            exists i s2,
              updateOne RegExp_test name q u s = (Ok (mkUpdateResult 1 1), s2) /\
              In (mkStoredDocument i name document) (rows s) /\
              rows s2 =
                map (fun r => if String.eqb (id r) i
                              then mkStoredDocument i name (JSON_stringify updatedDocument)
                              else r) (rows s)
        end
    end).
  { unfold updateOne. rewrite (findOne_found _ _ _ _ _ _ Hexec).
    destruct found as [|document rest]; [reflexivity|].
    destruct (_execute_from_row _ _ _ _ _ _ document Hexec (or_introl eq_refl))
      as [r [Hr [Hc Hd]]].
    pose proof (proj1 (Forall_forall _ _) Hrows r Hr) as [props [Hp Hid]].
    rewrite Hp in Hd. subst document.
    cbn [truthy negb js_get]. rewrite Hid.
    destruct (applyUpdate RegExp_test (VObj props) u) as [updated|e]; [|reflexivity].
    exists (id r), (sql_update (JSON_stringify updated) (VStr (id r)) name s1).
    split; [reflexivity|]. split.
    - destruct r as [ri rc rd]. cbn [id collection data] in *. subst. exact Hr.
    - unfold sql_update. cbn [rows]. rewrite Hs1. apply map_ext_in.
      intros r' Hr'. unfold row_selected.
      destruct (String.eqb (id r') (id r)) eqn:E; cbn [andb]; [|reflexivity].
      apply String.eqb_eq in E.
      assert (r' = r) by (eapply NoDup_map_injective; eauto). subst r'.
      rewrite Hc, String.eqb_refl. reflexivity. }
  split; [exact Hs1|]. split; [exact Hcase|].
  intros result s' H.
  destruct found as [|document rest].
  - rewrite Hcase in H. inversion H. reflexivity.
  - destruct (applyUpdate RegExp_test document u).
    + destruct Hcase as [i [s2 [Hu _]]]. rewrite Hu in H. inversion H. reflexivity.
    + rewrite Hcase in H. discriminate.
Qed.

Lemma sample_storage_ok : storage_ok sample_storage.
Proof.
  split.
  - repeat constructor; eexists; split; reflexivity.
  - cbn. repeat constructor; cbn; intuition discriminate.
Qed.

Lemma updateOne_result_witness :
  (exists i s2,
     updateOne literal_RegExp "test" (VObj [("name", VStr "Bob")])
       [("$inc", [("value", VNum 5)])] sample_storage
       = (Ok (mkUpdateResult 1 1), s2) /\
     In (mkStoredDocument i "test" Bob) (rows sample_storage) /\
     rows s2 =
       map (fun r => if String.eqb (id r) i
                     then mkStoredDocument i "test"
                            (VObj [("_id", VStr "2"); ("name", VStr "Bob"); ("value", VNum 25)])
                     else r) (rows sample_storage)) /\
  updateOne literal_RegExp "test" (VObj [("name", VStr "Zed")])
    [("$inc", [("value", VNum 5)])] sample_storage
    = (Ok (mkUpdateResult 0 0), mkStorage (rows sample_storage) [SELECT "test"]).
Proof.
  split.
  - exact (proj1 (proj2
      (updateOne_result literal_RegExp "test" (VObj [("name", VStr "Bob")])
         [("$inc", [("value", VNum 5)])] sample_storage [Bob]
         (mkStorage (rows sample_storage) [SELECT "test"])
         sample_storage_ok eq_refl))).
  - exact (proj1 (proj2
      (updateOne_result literal_RegExp "test" (VObj [("name", VStr "Zed")])
         [("$inc", [("value", VNum 5)])] sample_storage []
         (mkStorage (rows sample_storage) [SELECT "test"])
         sample_storage_ok eq_refl))).
Defined.

(** C8, against the specification, which has [updateOne] return [{1, 1}]
    whenever a document matches: a document matches, and [updateOne]
    returns no counts, it fails with the error of [$pull] on a document
    that has no [tags]; the table is as it was. *)
Lemma updateOne_fails_with_the_update :
  returned (toArray literal_RegExp (find "test" (VObj [("name", VStr "Bob")])) sample_storage)
    = Ok [Bob] /\
  fst (updateOne literal_RegExp "test" (VObj [("name", VStr "Bob")])
         [("$pull", [("tags", VStr "t1")])] sample_storage)
    = Throw (InvalidFieldType "$pull" "tags") /\
  rows (snd (updateOne literal_RegExp "test" (VObj [("name", VStr "Bob")])
               [("$pull", [("tags", VStr "t1")])] sample_storage))
    = rows sample_storage.
Proof. repeat split. Qed.

(** [insertOne] keeps the rows as [storage_ok] wants them. *)
Lemma JSON_stringify_keeps_id :
  forall props key i,
    lookup key props = Some (VStr i) ->
    exists props', JSON_stringify (VObj props) = VObj props' /\
                   lookup key props' = Some (VStr i).
Proof.
  induction props as [|[k x] rest IH]; intros key i H; [discriminate|].
  cbn [lookup] in H. destruct (String.eqb k key) eqn:E.
  - inversion H; subst. eexists. split; [reflexivity|]. cbn [lookup]. now rewrite E.
  - destruct (IH _ _ H) as [props' [Hs Hl]]. cbn in Hs.
    inversion Hs; subst props'; clear Hs.
    destruct x; (eexists; split; [reflexivity|]); cbn; rewrite ?E; exact Hl.
Qed.

Lemma insertOne_storage_ok :
  forall name document uuid s i s',
    storage_ok s ->
    insertOne name document uuid s = (Ok i, s') ->
    storage_ok s'.
Proof.
  intros name document uuid s i s' [Hrows Hnd] H.
  unfold insertOne, sql_insert in H.
  destruct (existsb (fun r => String.eqb (id r) uuid) (rows s)) eqn:E; [discriminate|].
  inversion H; subst; clear H. unfold storage_ok. cbn [rows]. split.
  - apply Forall_app. split; [exact Hrows|]. constructor; [|constructor].
    unfold row_ok. cbn [data id].
    apply JSON_stringify_keeps_id. apply lookup_assign_same.
  - rewrite map_app. cbn [map id].
    apply NoDup_rev in Hnd. rewrite <- (rev_involutive (map id (rows s) ++ [i])).
    apply NoDup_rev. rewrite rev_app_distr. cbn. constructor; [|exact Hnd].
    rewrite <- in_rev. intros Hin. apply in_map_iff in Hin. destruct Hin as [r [Hr Hin]].
    assert (existsb (fun r => String.eqb (id r) i) (rows s) = true).
    { apply existsb_exists. exists r. split; [exact Hin|]. rewrite Hr. apply String.eqb_refl. }
    congruence.
Qed.

(** ** Sorting *)

(** *** The stable sort, for any comparator *)

Section StableSort.

Context {A : Type}.
Variable comparator : A -> A -> Z.

Lemma sort_insert_permutation :
  forall x l, Permutation (x :: l) (sort_insert comparator x l).
Proof.
  intros x l. induction l as [|y r IH]; cbn; [apply Permutation_refl|].
  destruct (comparator x y <=? 0); [apply Permutation_refl|].
  eapply perm_trans; [apply perm_swap|]. now apply perm_skip.
Qed.

Lemma Array_sort_permutation :
  forall l, Permutation l (Array_sort comparator l).
Proof.
  induction l as [|x r IH]; cbn; [constructor|].
  eapply perm_trans; [apply perm_skip; exact IH | apply sort_insert_permutation].
Qed.

(** An element moves only past elements it is strictly after: a family of
    elements that never are strictly after each other keeps its order. *)
Lemma sort_insert_filter :
  forall (keep : A -> bool) x l,
    (forall y, In y l -> keep x = true -> keep y = true -> comparator x y <= 0) ->
    filter keep (sort_insert comparator x l) = filter keep (x :: l).
Proof.
  intros keep x l. induction l as [|y r IH]; intros H; [reflexivity|].
  cbn [sort_insert]. destruct (comparator x y <=? 0) eqn:E; [reflexivity|].
  apply Z.leb_gt in E. cbn [filter].
  rewrite IH by (intros z Hz; apply H; now right). cbn [filter].
  destruct (keep x) eqn:Kx, (keep y) eqn:Ky; try reflexivity.
  exfalso. specialize (H y (or_introl eq_refl) eq_refl Ky). lia.
Qed.

Lemma Array_sort_filter :
  forall (keep : A -> bool) l,
    (forall x y, keep x = true -> keep y = true -> comparator x y <= 0) ->
    filter keep (Array_sort comparator l) = filter keep l.
Proof.
  intros keep l H. induction l as [|x r IH]; [reflexivity|].
  cbn [Array_sort]. rewrite sort_insert_filter by (intros; now apply H).
  cbn [filter]. now rewrite IH.
Qed.

(** On elements the comparator orders consistently, the result is in
    order. *)
Variable domain : A -> Prop.
Hypothesis comparator_total :
  forall x y, domain x -> domain y -> comparator x y > 0 -> comparator y x <= 0.
Hypothesis comparator_transitive :
  forall x y z, domain x -> domain y -> domain z ->
    comparator x y <= 0 -> comparator y z <= 0 -> comparator x z <= 0.

Let before (x y : A) : Prop := comparator x y <= 0.

Lemma sort_insert_sorted :
  forall x l,
    domain x -> Forall domain l ->
    StronglySorted before l -> StronglySorted before (sort_insert comparator x l).
Proof.
  intros x l Hx. induction l as [|y r IH]; intros Hl Hs; cbn [sort_insert].
  - constructor; constructor.
  - inversion Hl as [|? ? Hy Hr]; subst. inversion Hs as [|? ? Hsr Hyr]; subst.
    destruct (comparator x y <=? 0) eqn:E.
    + apply Z.leb_le in E. constructor; [exact Hs|].
      constructor; [exact E|].
      rewrite Forall_forall in *. intros z Hz. unfold before.
      eapply comparator_transitive with (y := y); eauto. now apply Hyr.
    + apply Z.leb_gt in E. constructor; [now apply IH|].
      eapply Permutation_Forall; [apply sort_insert_permutation|].
      constructor; [|exact Hyr]. unfold before. apply comparator_total; auto. lia.
Qed.

Lemma Array_sort_sorted :
  forall l, Forall domain l -> StronglySorted before (Array_sort comparator l).
Proof.
  induction l as [|x r IH]; intros Hl; cbn [Array_sort]; [constructor|].
  inversion Hl; subst. apply sort_insert_sorted; auto.
  eapply Permutation_Forall; [apply Array_sort_permutation|]. assumption.
Qed.

End StableSort.

(** *** The comparator of [toArray] *)

Lemma string_ltb_irrefl : forall s, string_ltb s s = false.
Proof.
  intros s. unfold string_ltb.
  pose proof (proj2 (OrderedTypeEx.String_as_OT.cmp_eq s s) eq_refl) as H.
  unfold OrderedTypeEx.String_as_OT.cmp in H. now rewrite H.
Qed.

Lemma string_ltb_trans :
  forall a b c, string_ltb a b = true -> string_ltb b c = true -> string_ltb a c = true.
Proof.
  unfold string_ltb. intros a b c Hab Hbc.
  destruct (String.compare a b) eqn:Eab; try discriminate.
  destruct (String.compare b c) eqn:Ebc; try discriminate.
  apply OrderedTypeEx.String_as_OT.cmp_lt in Eab, Ebc.
  pose proof (OrderedTypeEx.String_as_OT.lt_trans _ _ _ Eab Ebc) as H.
  apply OrderedTypeEx.String_as_OT.cmp_lt in H.
  unfold OrderedTypeEx.String_as_OT.cmp in H. now rewrite H.
Qed.

Lemma string_ltb_trichotomy :
  forall a b, string_ltb a b = false -> string_ltb b a = false -> a = b.
Proof.
  unfold string_ltb. intros a b Hab Hba.
  destruct (String.compare a b) eqn:E; try discriminate.
  - now apply String.compare_eq_iff.
  - rewrite String.compare_antisym in Hba. rewrite E in Hba. discriminate.
Qed.

(** [v < v] is false for every value. *)
Lemma js_lt_irrefl : forall v, js_lt v v = false.
Proof.
  intros v. unfold js_lt, js_less.
  destruct (ToPrimitive v) eqn:E; try reflexivity;
    try (destruct (ToNumber _); [now rewrite Z.ltb_irrefl | reflexivity]).
  now rewrite string_ltb_irrefl.
Qed.

(** Documents with equal values on the sort keys compare as equal. *)
Lemma compare_documents_same_keys :
  forall spec a b, same_sort_keys spec a b -> compare_documents spec a b = 0.
Proof.
  induction spec as [|[key direction] rest IH]; intros a b H; [reflexivity|].
  inversion H as [|? ? Hk Hrest]; subst. cbn [fst] in Hk.
  cbn [compare_documents]. unfold js_gt. rewrite Hk, js_lt_irrefl. now apply IH.
Qed.

Lemma orderable_key_strict_total :
  forall docs key, orderable_key docs key -> strict_total_on docs key.
Proof.
  intros docs key [Hnum | Hstr]; split.
  - intros a b Ha Hb. destruct (Hnum a Ha) as [x ->], (Hnum b Hb) as [y ->].
    unfold js_lt, js_less; cbn. intros H1 H2.
    apply Z.ltb_ge in H1, H2. f_equal. lia.
  - intros a b c Ha Hb Hc.
    destruct (Hnum a Ha) as [x ->], (Hnum b Hb) as [y ->], (Hnum c Hc) as [z ->].
    unfold js_lt, js_less; cbn. intros H1 H2.
    apply Z.ltb_lt in H1, H2. apply Z.ltb_lt. lia.
  - intros a b Ha Hb. destruct (Hstr a Ha) as [x ->], (Hstr b Hb) as [y ->].
    unfold js_lt, js_less; cbn. intros H1 H2. f_equal.
    now apply string_ltb_trichotomy.
  - intros a b c Ha Hb Hc.
    destruct (Hstr a Ha) as [x ->], (Hstr b Hb) as [y ->], (Hstr c Hc) as [z ->].
    unfold js_lt, js_less; cbn. apply string_ltb_trans.
Qed.

Section Comparator.

Variable docs : list jsval.

Lemma key_cases :
  forall key a b,
    strict_total_on docs key -> In a docs -> In b docs ->
    let valueA := getNestedProperty a key in
    let valueB := getNestedProperty b key in
    (js_lt valueA valueB = true /\ js_lt valueB valueA = false) \/
    (js_lt valueA valueB = false /\ js_lt valueB valueA = true) \/
    (js_lt valueA valueB = false /\ js_lt valueB valueA = false /\ valueA = valueB).
Proof.
  intros key a b [Htri Htrans] Ha Hb valueA valueB. subst valueA valueB.
  destruct (js_lt (getNestedProperty a key) (getNestedProperty b key)) eqn:E1,
           (js_lt (getNestedProperty b key) (getNestedProperty a key)) eqn:E2; auto.
  - pose proof (Htrans a b a Ha Hb Ha E1 E2) as H. rewrite js_lt_irrefl in H. discriminate.
  - right; right. auto.
Qed.

(** The comparator puts [a] no later than [b] when the first key decides
    for [a], or ties and the other keys put [a] no later. *)
Lemma compare_documents_le :
  forall key d rest a b,
    strict_total_on docs key -> In a docs -> In b docs ->
    (compare_documents ((key, d) :: rest) a b <= 0 <->
     strictly_first d (getNestedProperty a key) (getNestedProperty b key) = true \/
     (getNestedProperty a key = getNestedProperty b key /\
      compare_documents rest a b <= 0)).
Proof.
  intros key d rest a b Hk Ha Hb. cbn [compare_documents]. unfold js_gt, strictly_first.
  destruct (key_cases key a b Hk Ha Hb) as [[E1 E2] | [[E1 E2] | [E1 [E2 E]]]];
    rewrite E1, E2.
  - destruct d; cbn [direction_value]; split; intros H; auto; try lia.
    destruct H as [H | [H _]]; [discriminate|].
    rewrite H, js_lt_irrefl in E1. discriminate.
  - destruct d; cbn [direction_value]; split; intros H; auto; try lia.
    destruct H as [H | [H _]]; [discriminate|].
    rewrite H, js_lt_irrefl in E2. discriminate.
  - split.
    + intros H. right. auto.
    + intros [H | [_ H]]; [destruct d; discriminate | exact H].
Qed.

Lemma strictly_first_trans :
  forall key d a b c,
    strict_total_on docs key -> In a docs -> In b docs -> In c docs ->
    strictly_first d (getNestedProperty a key) (getNestedProperty b key) = true ->
    strictly_first d (getNestedProperty b key) (getNestedProperty c key) = true ->
    strictly_first d (getNestedProperty a key) (getNestedProperty c key) = true.
Proof.
  intros key d a b c [_ Htrans] Ha Hb Hc. destruct d; cbn [strictly_first]; intros H1 H2.
  - eapply (Htrans a b c); eauto.
  - eapply (Htrans c b a); eauto.
Qed.

Variable spec : SortSpec.
Hypothesis spec_total : Forall (fun entry => strict_total_on docs (fst entry)) spec.

Lemma compare_documents_total :
  forall a b, In a docs -> In b docs ->
    compare_documents spec a b > 0 -> compare_documents spec b a <= 0.
Proof.
  induction spec as [|[key d] rest IH]; intros a b Ha Hb H; [cbn in *; lia|].
  inversion spec_total as [|? ? Hk Hrest]; subst. cbn [fst] in Hk.
  apply (compare_documents_le key d rest b a Hk Hb Ha).
  assert (Hn : ~ compare_documents ((key, d) :: rest) a b <= 0) by lia.
  rewrite (compare_documents_le key d rest a b Hk Ha Hb) in Hn.
  unfold strictly_first in *.
  destruct (key_cases key a b Hk Ha Hb) as [[E1 E2] | [[E1 E2] | [E1 [E2 E]]]].
  - destruct d; [exfalso; apply Hn; now left | now left].
  - destruct d; [now left | exfalso; apply Hn; now left].
  - right. split; [now symmetry|]. apply (IH Hrest); auto.
    destruct (Z_le_gt_dec (compare_documents rest a b) 0) as [Hle|Hgt]; [|exact Hgt].
    exfalso. apply Hn. right. auto.
Qed.

Lemma compare_documents_transitive :
  forall a b c, In a docs -> In b docs -> In c docs ->
    compare_documents spec a b <= 0 -> compare_documents spec b c <= 0 ->
    compare_documents spec a c <= 0.
Proof.
  induction spec as [|[key d] rest IH]; intros a b c Ha Hb Hc H1 H2; [cbn; lia|].
  inversion spec_total as [|? ? Hk Hrest]; subst. cbn [fst] in Hk.
  rewrite (compare_documents_le key d rest a b Hk Ha Hb) in H1.
  rewrite (compare_documents_le key d rest b c Hk Hb Hc) in H2.
  apply (compare_documents_le key d rest a c Hk Ha Hc).
  destruct H1 as [F1 | [E1 R1]], H2 as [F2 | [E2 R2]].
  - left. eapply strictly_first_trans with (b := b); eauto.
  - left. now rewrite <- E2.
  - left. now rewrite E1.
  - right. split; [congruence|]. eapply (IH Hrest) with (b := b); eauto.
Qed.

Lemma compare_documents_sorted_before :
  forall a b, In a docs -> In b docs ->
    compare_documents spec a b <= 0 -> sorted_before spec a b.
Proof.
  induction spec as [|[key d] rest IH]; intros a b Ha Hb H; [exact I|].
  inversion spec_total as [|? ? Hk Hrest]; subst. cbn [fst] in Hk.
  rewrite (compare_documents_le key d rest a b Hk Ha Hb) in H.
  cbn [sorted_before]. unfold js_gt. unfold strictly_first in H.
  destruct H as [F | [E R]].
  - left. destruct d; exact F.
  - right. split; [exact E | apply (IH Hrest); auto].
Qed.

End Comparator.

Lemma StronglySorted_weaken :
  forall {A : Type} (R R' : A -> A -> Prop) (l : list A),
    (forall x y, In x l -> In y l -> R x y -> R' x y) ->
    StronglySorted R l -> StronglySorted R' l.
Proof.
  intros A R R' l H Hs. induction Hs as [|x r Hr IH Hx]; constructor.
  - apply IH. intros a b Ha Hb. apply H; now right.
  - rewrite Forall_forall in *. intros y Hy. apply H; [now left | now right | now apply Hx].
Qed.



(** Two keys and a tie: the documents with equal [group] and [rank] keep
    their order ([b] before [d]), the others are ordered by [group]
    ascending, then [rank] descending. *)
Lemma sort_two_keys_example :
  Array_sort (compare_documents [("group", Asc); ("rank", Desc)])
    [ranked "a" 2 1; ranked "b" 1 5; ranked "c" 1 7; ranked "d" 1 5; ranked "e" 2 9]
  = [ranked "c" 1 7; ranked "b" 1 5; ranked "d" 1 5; ranked "e" 2 9; ranked "a" 2 1].
Proof. reflexivity. Qed.

(** ** Predicate evaluation returns or throws *)

Lemma All_In :
  forall {T : Type} (P : T -> Prop) (l : list T) (x : T), All P l -> In x l -> P x.
Proof.
  intros T P l x. induction l as [|y r IH]; intros H Hin; [contradiction|].
  destruct H as [Hy Hr]. destruct Hin as [<-|Hin]; auto.
Qed.

Lemma every_returns :
  forall {T : Type} (f : T -> outcome bool) (l : list T),
    (forall x, In x l -> exists b, f x = Ok b) -> exists b, every f l = Ok b.
Proof.
  intros T f l. induction l as [|x r IH]; intros H; cbn [every]; [eauto|].
  destruct (H x (or_introl eq_refl)) as [b ->]. cbn [bind].
  destruct b; [apply IH; intros; apply H; now right | eauto].
Qed.

Lemma some_returns :
  forall {T : Type} (f : T -> outcome bool) (l : list T),
    (forall x, In x l -> exists b, f x = Ok b) -> exists b, some f l = Ok b.
Proof.
  intros T f l. induction l as [|x r IH]; intros H; cbn [some]; [eauto|].
  destruct (H x (or_introl eq_refl)) as [b ->]. cbn [bind].
  destruct b; [eauto | apply IH; intros; apply H; now right].
Qed.

Lemma every_indexed_returns :
  forall {T : Type} (f : nat -> T -> outcome bool) (l : list T) (i : nat),
    (forall j x, In x l -> exists b, f j x = Ok b) -> exists b, every_indexed f i l = Ok b.
Proof.
  intros T f l. induction l as [|x r IH]; intros i H; cbn [every_indexed]; [eauto|].
  destruct (H i x (or_introl eq_refl)) as [b ->]. cbn [bind].
  destruct b; [apply IH; intros; apply H; now right | eauto].
Qed.

(** An index is not the name of an operator. *)
Lemma index_key_not_operator :
  forall i,
    startsWith_dollar (index_key i) = false /\
    String.eqb (index_key i) "$not" = false /\
    String.eqb (index_key i) "$regex" = false.
Proof.
  intros i. unfold index_key. destruct (Nat.to_uint i); repeat split; reflexivity.
Qed.

(** [matchesOperator] throws only what the call for [$not] or the
    pattern of [$regex] throws. *)
Lemma matchesOperator_returns :
  forall RegExp_test matchesQuery_not value operator operatorValue,
    (String.eqb operator "$not" = true ->
       exists b, matchesQuery_not value operatorValue = Ok b) ->
    (String.eqb operator "$regex" = true -> accepted RegExp_test operatorValue) ->
    exists b, matchesOperator RegExp_test matchesQuery_not value operator operatorValue = Ok b.
Proof.
  intros RegExp_test matchesQuery_not value operator operatorValue Hnot Hregex.
  unfold matchesOperator.
  repeat match goal with
         | |- exists b, (if String.eqb operator ?name then _ else _) = Ok b =>
             let E := fresh "E" in
             destruct (String.eqb operator name) eqn:E
         end; eauto.
  - destruct (Hnot eq_refl) as [b ->]. cbn [bind]. eauto.
  - unfold regex_test. destruct (Hregex eq_refl (ToString value)) as [b ->]. eauto.
Qed.

Lemma matchesField_returns_when_ok :
  forall RegExp_test value document key,
    operators_ok RegExp_test value ->
    exists b, matchesField RegExp_test document key value = Ok b.
Proof.
  intros RegExp_test value.
  induction value as [| | | | | |elems IH|ops IH] using jsval_ind;
    intros document key Hok; try (cbn; unfold matchesLiteral; eauto; fail).
  - cbn [matchesField]. apply every_indexed_returns. intros j x Hin.
    destruct (index_key_not_operator j) as (_ & Hn & Hr).
    apply matchesOperator_returns; rewrite ?Hn, ?Hr; discriminate.
  - cbn [matchesField]. apply every_returns. intros [op opValue] Hin.
    pose proof (All_In _ _ _ Hok Hin) as Hentry. cbn beta iota in Hentry.
    rewrite Forall_forall in IH. specialize (IH _ Hin). cbn [snd] in IH.
    apply matchesOperator_returns.
    + intros Hnot. rewrite Hnot in Hentry.
      destruct (String.eqb op "$regex") eqn:Er.
      * apply String.eqb_eq in Er, Hnot. subst. discriminate.
      * now apply IH.
    + intros Hregex. now rewrite Hregex in Hentry.
Qed.

Lemma matchesQuery_returns_when_ok :
  forall RegExp_test document query,
    query_ok RegExp_test query ->
    exists b, matchesQuery RegExp_test document query = Ok b.
Proof.
  intros RegExp_test document query.
  enough (H :
    (query_ok RegExp_test query ->
     exists b, matchesQuery RegExp_test document query = Ok b) /\
    (forall subQueries, query = VArr subQueries ->
       forall q, In q subQueries -> query_ok RegExp_test q ->
                 exists b, matchesQuery RegExp_test document q = Ok b))
    by exact (proj1 H).
  induction query as [| | | | | |elems IH|props IH] using jsval_ind;
    (split; [|discriminate || idtac]); try (intros []; fail); try (cbn; eauto; fail).
  - (* a string: its characters are compared as literals *)
    intros _. cbn [matchesQuery]. apply every_returns.
    intros [key value] _. unfold matchesLiteral. eauto.
  - (* an array as a query *)
    intros Hok. cbn [matchesQuery]. apply every_indexed_returns.
    intros j x Hin. apply matchesField_returns_when_ok.
    exact (All_In _ _ _ Hok Hin).
  - (* the sub-queries of an array *)
    intros subQueries E q Hin Hq. inversion E; subst.
    rewrite Forall_forall in IH. exact (proj1 (IH q Hin) Hq).
  - (* an object *)
    intros Hok. cbn [matchesQuery]. apply every_returns.
    intros [key value] Hin.
    pose proof (All_In _ _ _ Hok Hin) as Hentry. cbn beta iota in Hentry.
    rewrite Forall_forall in IH. specialize (IH _ Hin). cbn [snd] in IH.
    destruct IH as [_ IHsub].
    destruct (startsWith_dollar key); [|now apply matchesField_returns_when_ok].
    destruct (String.eqb key "$and") eqn:Eand;
      [|destruct (String.eqb key "$or") eqn:Eor;
        [|destruct (String.eqb key "$nor") eqn:Enor]];
      cbn [orb] in Hentry; eauto;
      destruct value as [| | | | | |subQueries|]; eauto.
    + apply every_returns. intros q Hq.
      exact (IHsub subQueries eq_refl q Hq (All_In _ _ _ Hentry Hq)).
    + apply some_returns. intros q Hq.
      exact (IHsub subQueries eq_refl q Hq (All_In _ _ _ Hentry Hq)).
    + destruct (some_returns (matchesQuery RegExp_test document) subQueries) as [b ->].
      * intros q Hq.
        exact (IHsub subQueries eq_refl q Hq (All_In _ _ _ Hentry Hq)).
      * cbn [bind]. eauto.
Qed.




(** Whatever the engine, a pattern it rejects is thrown up to the caller. *)
Lemma malformed_regex_throws :
  forall (RegExp_test : string -> string -> option bool) D f pattern,
    startsWith_dollar f = false ->
    RegExp_test pattern (ToString (getNestedProperty D f)) = None ->
    matchesQuery RegExp_test D (VObj [(f, VObj [("$regex", VStr pattern)])])
      = Throw SyntaxError.
Proof.
  intros RegExp_test D f pattern Hf Hre.
  cbn [matchesQuery every]. rewrite Hf. cbn [matchesField every].
  unfold matchesOperator. cbn [String.eqb Ascii.eqb Bool.eqb].
  unfold regex_test. cbn [regex_pattern ToString]. rewrite Hre. reflexivity.
Qed.


(** ** The tests of the repository

    The cases of [index.test.ts] that exercise the engine, run on the
    embedding. *)

Lemma test_find_matching_a_query :
  returned (toArray literal_RegExp
              (find "test" (VObj [("value", VObj [("$gt", VNum 15)])])) two_documents)
    = Ok [test_document "2" "Document 2" [("value", VNum 20)]].
Proof. reflexivity. Qed.

Lemma test_exists_operator :
  returned (toArray literal_RegExp
              (find "test" (VObj [("value", VObj [("$exists", VBool true)])]))
              (test_storage [("1", test_document "1" "Document 1" [("value", VNum 10)]);
                             ("2", test_document "2" "Document 2" [])]))
    = Ok [test_document "1" "Document 1" [("value", VNum 10)]].
Proof. reflexivity. Qed.

Lemma test_type_operator :
  returned (toArray literal_RegExp
              (find "test" (VObj [("value", VObj [("$type", VStr "number")])]))
              (test_storage [("1", test_document "1" "Document 1" [("value", VNum 10)]);
                             ("2", test_document "2" "Document 2" [("value", VStr "20")])]))
    = Ok [test_document "1" "Document 1" [("value", VNum 10)]].
Proof. reflexivity. Qed.

Lemma test_regex_operator :
  returned (toArray literal_RegExp
              (find "test" (VObj [("name", VObj [("$regex", VStr "^Test")])]))
              (test_storage [("1", test_document "1" "Document 1" [("value", VNum 10)]);
                             ("2", test_document "2" "Test 2" [("value", VNum 20)])]))
    = Ok [test_document "2" "Test 2" [("value", VNum 20)]].
Proof. reflexivity. Qed.

Lemma test_nor_operator :
  returned (toArray literal_RegExp
              (find "test"
                 (VObj [("$nor", VArr [VObj [("name", VObj [("$regex", VStr "^Test")])];
                                        VObj [("value", VObj [("$gt", VNum 20)])]])]))
              (test_storage [("1", test_document "1" "Document 1" [("value", VNum 10)]);
                             ("2", test_document "2" "Test 2" [("value", VNum 20)]);
                             ("3", test_document "3" "Document 3" [("value", VNum 30)])]))
    = Ok [test_document "1" "Document 1" [("value", VNum 10)]].
Proof. reflexivity. Qed.

Lemma test_findOne :
  fst (findOne literal_RegExp "test" VUndefined (test_storage [])) = Ok VNull /\
  fst (findOne literal_RegExp "test" (VObj [("name", VStr "Document 1")]) two_documents)
    = Ok (test_document "1" "Document 1" [("value", VNum 10)]).
Proof. split; reflexivity. Qed.

Lemma test_updateOne :
  fst (updateOne literal_RegExp "test" (VObj [("name", VStr "Non-existent")])
         [("$set", [("value", VNum 100)])] (test_storage []))
    = Ok (mkUpdateResult 0 0) /\
  updateOne literal_RegExp "test" (VObj [("name", VStr "Document 1")])
    [("$set", [("value", VNum 100)])]
    (test_storage [("1", test_document "1" "Document 1" [("value", VNum 10)])])
    = (Ok (mkUpdateResult 1 1),
       mkStorage
         [mkStoredDocument "1" "test" (test_document "1" "Document 1" [("value", VNum 100)])]
         [SELECT "test";
          UPDATE (test_document "1" "Document 1" [("value", VNum 100)]) (VStr "1") "test"]).
Proof. split; reflexivity. Qed.

Lemma test_addToSet_and_pop :
  let tags_after update :=
    match applyUpdate literal_RegExp
            (test_document "1" "Document 1"
               [("tags", VArr [VStr "tag1"; VStr "tag2"; VStr "tag3"])]) update with
    | Ok document => getNestedProperty document "tags"
    | Throw _ => VUndefined
    end in
  tags_after [("$addToSet", [("tags", VStr "tag4")])]
    = VArr [VStr "tag1"; VStr "tag2"; VStr "tag3"; VStr "tag4"] /\
  tags_after [("$addToSet", [("tags", VStr "tag2")])]
    = VArr [VStr "tag1"; VStr "tag2"; VStr "tag3"] /\
  tags_after [("$pop", [("tags", VNum 1)])] = VArr [VStr "tag1"; VStr "tag2"] /\
  tags_after [("$pop", [("tags", VNum (-1))])] = VArr [VStr "tag2"; VStr "tag3"] /\
  fst (updateOne literal_RegExp "test" (VObj [("name", VStr "Document 1")])
         [("$pop", [("tags", VNum 1)])] tagged_document) = Ok (mkUpdateResult 1 1).
Proof. repeat split. Qed.

Lemma test_cursor :
  let values c :=
    match returned (toArray literal_RegExp c three_documents) with
    | Ok results => map (fun d => getNestedProperty d "value") results
    | Throw _ => []
    end in
  values (sort [("value", Asc)] (find "test" VUndefined)) = [VNum 10; VNum 20; VNum 30] /\
  values (limit 2 (find "test" VUndefined)) = [VNum 30; VNum 20] /\
  values (skip 1 (find "test" VUndefined)) = [VNum 20; VNum 10] /\
  match first literal_RegExp (find "test" VUndefined) three_documents with
  | (Ok (_, document), _) => getNestedProperty document "name" = VStr "A"
  | (Throw _, _) => False
  end /\
  match toArray literal_RegExp (find "test" VUndefined) three_documents with
  | (Ok (cursor, _), _) => count cursor = 3
  | (Throw _, _) => False
  end.
Proof. repeat split. Qed.


(** * Further properties *)

(** ** The path helpers *)

Lemma split_dot_not_empty : forall path, split_dot path <> [].
Proof.
  intros path. destruct path as [|c rest]; cbn; [discriminate|].
  destruct (Ascii.eqb c "."); [discriminate|].
  destruct (split_dot rest); discriminate.
Qed.



Lemma split_dot_app :
  forall p q, split_dot (p ++ "." ++ q) = (split_dot p ++ split_dot q)%list.
Proof.
  induction p as [|c p IH]; intros q; [reflexivity|].
  cbn [String.append split_dot]. specialize (IH q). cbn [String.append] in IH.
  destruct (Ascii.eqb c "."); [now rewrite IH|].
  rewrite IH. destruct (split_dot p) as [|x xs] eqn:E; [|reflexivity].
  now apply split_dot_not_empty in E.
Qed.

Lemma get_parts_undefined : forall parts, get_parts VUndefined parts = VUndefined.
Proof. intros [|part rest]; reflexivity. Qed.

Lemma get_parts_app :
  forall l1 l2 current,
    get_parts current (l1 ++ l2) = get_parts (get_parts current l1) l2.
Proof.
  induction l1 as [|part rest IH]; intros l2 current; [reflexivity|].
  cbn [app get_parts].
  destruct current; try apply IH; now rewrite get_parts_undefined.
Qed.

(** X2: a dotted path is read segment by segment: reading [p.q] is
    reading [q] in what is read at [p], also when that is null or
    undefined, where both are undefined. *)
Theorem getNestedProperty_composes :
  forall (obj : jsval) (p q : string),
    getNestedProperty obj (p ++ "." ++ q) =
    getNestedProperty (getNestedProperty obj p) q.
Proof.
  intros obj p q. unfold getNestedProperty. now rewrite split_dot_app, get_parts_app.
Qed.

Lemma lookup_not_in :
  forall key props, ~ In key (map fst props) -> lookup key props = None.
Proof.
  intros key props. induction props as [|[k v] rest IH]; intros H; [reflexivity|].
  cbn [lookup]. destruct (String.eqb k key) eqn:E.
  - apply String.eqb_eq in E. exfalso. apply H. now left.
  - apply IH. intros Hin. apply H. now right.
Qed.

Lemma lookup_remove_key :
  forall key props, NoDup (map fst props) -> lookup key (remove_key key props) = None.
Proof.
  intros key props. induction props as [|[k v] rest IH]; intros H; [reflexivity|].
  cbn [map fst] in H. inversion H as [|? ? Hnotin Hrest]; subst.
  cbn [remove_key]. destruct (String.eqb k key) eqn:E.
  - apply String.eqb_eq in E. subst. now apply lookup_not_in.
  - cbn [lookup]. rewrite E. now apply IH.
Qed.

Lemma lookup_In :
  forall key props v, lookup key props = Some v -> exists k, In (k, v) props.
Proof.
  intros key props v. induction props as [|[k x] rest IH]; intros H; [discriminate|].
  cbn [lookup] in H. destruct (String.eqb k key).
  - inversion H; subst. exists k. now left.
  - destruct (IH H) as [k' Hin]. exists k'. now right.
Qed.

Lemma distinct_keys_nth :
  forall l i, All distinct_keys l -> distinct_keys (nth i l VUndefined).
Proof.
  induction l as [|x r IH]; intros [|i] H; cbn; try exact I.
  - exact (proj1 H).
  - apply IH. exact (proj2 H).
Qed.

Lemma distinct_keys_chars : forall s, All distinct_keys (chars s).
Proof. induction s; cbn; auto. Qed.

Lemma distinct_keys_indexed_get :
  forall l key, All distinct_keys l -> distinct_keys (indexed_get l key).
Proof.
  intros l key H. unfold indexed_get.
  destruct (index_of_key key (List.length l)); [now apply distinct_keys_nth|].
  destruct (String.eqb key "length"); exact I.
Qed.

Lemma distinct_keys_js_get :
  forall current part, distinct_keys current -> distinct_keys (js_get current part).
Proof.
  intros current part H. destruct current; try exact I; cbn [js_get].
  - apply distinct_keys_indexed_get, distinct_keys_chars.
  - now apply distinct_keys_indexed_get.
  - destruct (lookup part props) as [v|] eqn:E; [|exact I].
    destruct (lookup_In _ _ _ E) as [k Hin]. cbn [distinct_keys] in H.
    exact (All_In _ _ _ (proj2 H) Hin).
Qed.

Lemma delete_parts_primitive :
  forall parts v v',
    is_container v = false -> delete_parts v parts = Ok v' -> v' = v.
Proof.
  intros parts v v' Hv H. destruct parts as [|part [|p2 rest]].
  - now inversion H.
  - cbn [delete_parts] in H. destruct v; try discriminate; cbn [js_delete] in H;
      try (now inversion H).
    destruct (index_of_key part (List.length (chars s))); [discriminate|].
    destruct (String.eqb part "length"); [discriminate | now inversion H].
  - cbn [delete_parts] in H. destruct v; discriminate.
Qed.

Lemma js_in_false_get :
  forall part current, js_in part current = Ok false -> js_get current part = VUndefined.
Proof.
  intros part current H. destruct current; try discriminate; cbn [js_in js_get] in *.
  - unfold indexed_get. destruct (index_of_key part (List.length elems)); [discriminate|].
    destruct (String.eqb part "length"); [discriminate | reflexivity].
  - destruct (lookup part props); [discriminate | reflexivity].
Qed.

Lemma delete_then_get_parts :
  forall parts current current',
    parts <> [] -> distinct_keys current ->
    delete_parts current parts = Ok current' ->
    get_parts current' parts = VUndefined.
Proof.
  induction parts as [|part rest IH]; intros current current' Hne Hd H; [congruence|].
  destruct rest as [|p2 rest].
  - cbn [delete_parts] in H. cbn [get_parts].
    destruct current; try discriminate; cbn [js_delete] in H.
    + inversion H; reflexivity.
    + inversion H; reflexivity.
    + inversion H; reflexivity.
    + destruct (index_of_key part (List.length (chars s))) eqn:E; [discriminate|].
      destruct (String.eqb part "length") eqn:El; [discriminate|].
      inversion H; subst. cbn [js_get]. unfold indexed_get. now rewrite E, El.
    + destruct (index_of_key part (List.length elems)) eqn:E; [discriminate|].
      destruct (String.eqb part "length") eqn:El; [discriminate|].
      inversion H; subst. cbn [js_get]. unfold indexed_get. now rewrite E, El.
    + inversion H; subst. cbn [js_get]. cbn [distinct_keys] in Hd.
      now rewrite lookup_remove_key.
  - assert (Hne2 : p2 :: rest <> []) by discriminate.
    cbn [delete_parts] in H. apply bind_Ok_inv in H. destruct H as [present [Hin H]].
    pose proof (js_in_container _ _ _ Hin) as Hc.
    destruct present.
    + apply bind_Ok_inv in H. destruct H as [next [Hnext H]]. inversion H; subst; clear H.
      pose proof (IH _ _ Hne2 (distinct_keys_js_get current part Hd) Hnext) as Hget.
      rewrite get_parts_container by now apply put_back_container.
      destruct current; try discriminate.
      * (* an array *)
        destruct (index_of_key part (List.length elems)) as [i|] eqn:E.
        -- rewrite js_get_put_back; [exact Hget | right; eauto].
        -- cbn [put_back]. rewrite E.
           assert (Hprim : is_container (js_get (VArr elems) part) = false).
           { cbn [js_get]. unfold indexed_get. rewrite E.
             destruct (String.eqb part "length"); reflexivity. }
           rewrite (delete_parts_primitive (p2 :: rest) _ _ Hprim Hnext) in Hget. exact Hget.
      * (* an object *)
        rewrite js_get_put_back; [exact Hget | left; eauto].
    + inversion H; subst.
      rewrite get_parts_container by exact Hc.
      rewrite (js_in_false_get _ _ Hin). apply get_parts_undefined.
Qed.



(** ** Predicate evaluation *)

Lemma bind_bool_id :
  forall c : outcome bool, (holds <- c ;; if holds then Ok true else Ok false) = c.
Proof. intros [[|]|e]; reflexivity. Qed.

Lemma every_app :
  forall {T : Type} (f : T -> outcome bool) (l1 l2 : list T),
    every f (l1 ++ l2) = and_then (every f l1) (every f l2).
Proof.
  intros T f l1 l2. unfold and_then. induction l1 as [|x r IH]; cbn [app every bind].
  - reflexivity.
  - destruct (f x) as [[|]|e]; cbn [bind]; auto.
Qed.

(** X4: the entries of a query are a conjunction, evaluated in order and
    up to the first that fails: a query of the entries of two queries is
    their [&&], and so is [$and] of the two. *)
Theorem query_entries_are_a_conjunction :
  forall (RegExp_test : string -> string -> option bool) (D : jsval)
         (p q : list (string * jsval)),
    matchesQuery RegExp_test D (VObj (p ++ q)) =
      and_then (matchesQuery RegExp_test D (VObj p)) (matchesQuery RegExp_test D (VObj q)) /\
    matchesQuery RegExp_test D (VObj [("$and", VArr [VObj p; VObj q])]) =
      and_then (matchesQuery RegExp_test D (VObj p)) (matchesQuery RegExp_test D (VObj q)).
Proof.
  intros RegExp_test D p q. split.
  - cbn [matchesQuery]. apply every_app.
  - change (matchesQuery RegExp_test D (VObj [("$and", VArr [VObj p; VObj q])]))
      with (holds <- every (matchesQuery RegExp_test D) [VObj p; VObj q] ;;
            if holds then Ok true else Ok false).
    rewrite bind_bool_id. cbn [every]. unfold and_then.
    destruct (matchesQuery RegExp_test D (VObj p)) as [[|]|e]; cbn [bind]; auto.
    apply bind_bool_id.
Qed.

(** [matchesField] reads the document through the value at the key only. *)
Lemma matchesField_docValue :
  forall RegExp_test value d1 k1 d2 k2,
    getNestedProperty d1 k1 = getNestedProperty d2 k2 ->
    matchesField RegExp_test d1 k1 value = matchesField RegExp_test d2 k2 value.
Proof.
  intros RegExp_test value d1 k1 d2 k2 H.
  destruct value; cbn [matchesField]; unfold matchesLiteral; now rewrite H.
Qed.

Lemma matchesQuery_one_field :
  forall RegExp_test D f value,
    startsWith_dollar f = false ->
    matchesQuery RegExp_test D (VObj [(f, value)]) = matchesField RegExp_test D f value.
Proof.
  intros RegExp_test D f value Hf. cbn [matchesQuery every]. rewrite Hf.
  apply bind_bool_id.
Qed.

(** X5: [$not] is the negation of the entry it wraps: [{f: {$not: x}}]
    evaluates to the negation of [{f: x}], whether [x] is a map of operators
    or a literal, and throws what [{f: x}] throws. *)
Theorem not_negates_the_entry :
  forall (RegExp_test : string -> string -> option bool) (D : jsval)
         (f : string) (x : jsval),
    startsWith_dollar f = false ->
    matchesQuery RegExp_test D (VObj [(f, VObj [("$not", x)])]) =
    negated (matchesQuery RegExp_test D (VObj [(f, x)])).
Proof.
  intros RegExp_test D f x Hf. rewrite !matchesQuery_one_field by exact Hf.
  cbn [matchesField every]. rewrite bind_bool_id.
  unfold matchesOperator. cbn [String.eqb Ascii.eqb Bool.eqb]. unfold negated.
  now rewrite (matchesField_docValue RegExp_test x
                 (VObj [("value", getNestedProperty D f)]) "value" D f eq_refl).
Qed.

Lemma not_negates_the_entry_witness :
  matchesQuery literal_RegExp Ann (VObj [("value", VObj [("$not", VObj [("$gt", VNum 15)])])])
    = Ok true /\
  matchesQuery literal_RegExp Ann (VObj [("value", VObj [("$gt", VNum 15)])]) = Ok false.
Proof.
  split; [|reflexivity].
  rewrite (not_negates_the_entry literal_RegExp Ann "value" (VObj [("$gt", VNum 15)]))
    by reflexivity.
  reflexivity.
Defined.

(** X6: over an array of sub-queries [$nor] is the negation of [$or];
    over an operand that is not an array both fail, so there it is not. *)
Theorem nor_negates_or :
  forall (RegExp_test : string -> string -> option bool) (D : jsval),
    (forall subQueries,
       matchesQuery RegExp_test D (VObj [("$nor", VArr subQueries)]) =
       negated (matchesQuery RegExp_test D (VObj [("$or", VArr subQueries)]))) /\
    (forall operand,
       is_array operand = false ->
       matchesQuery RegExp_test D (VObj [("$nor", operand)]) = Ok false /\
       matchesQuery RegExp_test D (VObj [("$or", operand)]) = Ok false).
Proof.
  intros RegExp_test D. split.
  - intros subQueries.
    change (matchesQuery RegExp_test D (VObj [("$or", VArr subQueries)]))
      with (holds <- some (matchesQuery RegExp_test D) subQueries ;;
            if holds then Ok true else Ok false).
    change (matchesQuery RegExp_test D (VObj [("$nor", VArr subQueries)]))
      with (holds <- (b <- some (matchesQuery RegExp_test D) subQueries ;; Ok (negb b)) ;;
            if holds then Ok true else Ok false).
    rewrite !bind_bool_id. reflexivity.
  - intros operand H. destruct operand; try discriminate; split; reflexivity.
Qed.

Lemma nor_negates_or_witness :
  matchesQuery literal_RegExp Ann (VObj [("$nor", VStr "x")]) = Ok false /\
  matchesQuery literal_RegExp Ann (VObj [("$or", VStr "x")]) = Ok false.
Proof. exact (proj2 (nor_negates_or literal_RegExp Ann) (VStr "x") eq_refl). Defined.

Lemma js_less_undefined :
  forall x, js_less VUndefined x = None /\ js_less x VUndefined = None.
Proof.
  intros x. unfold js_less. split.
  - cbn. destruct (ToPrimitive x); reflexivity.
  - destruct (ToPrimitive x) eqn:E; cbn [ToPrimitive];
      change (ToNumber VUndefined) with (@None Z);
      repeat match goal with
             | |- context [ToNumber ?v] => destruct (ToNumber v)
             end;
      reflexivity.
Qed.



(** X8: a query value that is an array is read as a map of operators
    keyed by its indices, never compared with the field: a non-empty array
    matches no document, the empty array and the empty object match every
    document. *)
Theorem array_valued_entry_is_not_an_equality :
  forall (RegExp_test : string -> string -> option bool) (D : jsval)
         (f : string) (x : jsval) (l : list jsval),
    startsWith_dollar f = false ->
    matchesQuery RegExp_test D (VObj [(f, VArr (x :: l))]) = Ok false /\
    matchesQuery RegExp_test D (VObj [(f, VArr [])]) = Ok true /\
    matchesQuery RegExp_test D (VObj [(f, VObj [])]) = Ok true.
Proof.
  intros RegExp_test D f x l Hf. rewrite !matchesQuery_one_field by exact Hf.
  repeat split.
Qed.

Lemma array_valued_entry_is_not_an_equality_witness :
  matchesQuery literal_RegExp
    (VObj [("tags", VArr [VStr "a"])]) (VObj [("tags", VArr [VStr "a"])]) = Ok false /\
  matchesQuery literal_RegExp Ann (VObj [("tags", VArr [])]) = Ok true.
Proof.
  destruct (array_valued_entry_is_not_an_equality literal_RegExp
              (VObj [("tags", VArr [VStr "a"])]) "tags" (VStr "a") [] eq_refl)
    as (H1 & _).
  destruct (array_valued_entry_is_not_an_equality literal_RegExp
              Ann "tags" (VStr "a") [] eq_refl)
    as (_ & H2 & _).
  split; assumption.
Defined.


(** ** Finding documents *)

Lemma filterM_filter :
  forall {A : Type} (f : A -> outcome bool) (l kept : list A),
    filterM f l = Ok kept ->
    kept = filter (fun x => match f x with Ok true => true | _ => false end) l /\
    (forall x, In x l -> exists b, f x = Ok b).
Proof.
  intros A f l. induction l as [|x r IH]; intros kept H; cbn [filterM] in H.
  - inversion H. split; [reflexivity | intros ? []].
  - apply bind_Ok_inv in H. destruct H as [keep [Hx H]].
    apply bind_Ok_inv in H. destruct H as [r' [Hr H]]. inversion H; subst; clear H.
    destruct (IH _ Hr) as [-> Hall]. split.
    + cbn [filter]. rewrite Hx. destruct keep; reflexivity.
    + intros y [<-|Hy]; eauto.
Qed.

(** What [_execute] finds is the filter of the payloads of the collection. *)
Lemma _execute_filter :
  forall RegExp_test c s found s',
    _execute RegExp_test c s = (Ok found, s') ->
    found = filter (matches RegExp_test (query c)) (documents_of (collectionName c) s) /\
    (forall d, In d (documents_of (collectionName c) s) ->
               exists b, matchesQuery RegExp_test d (query c) = Ok b).
Proof.
  intros RegExp_test c s found s' H. unfold _execute, getAllDocuments in H.
  inversion H as [[Hf Hs]]. clear H Hs.
  exact (filterM_filter _ _ _ Hf).
Qed.

Lemma toArray_find_returned :
  forall RegExp_test name q s found,
    returned (toArray RegExp_test (find name q) s) = Ok found ->
    exists s', _execute RegExp_test (find name q) s = (Ok found, s').
Proof.
  intros RegExp_test name q s found H. unfold returned in H.
  rewrite toArray_executes in H by reflexivity.
  destruct (_execute RegExp_test (find name q) s) as [[found'|e] s'] eqn:E;
    cbn in H; [|discriminate].
  inversion H; subst. eauto.
Qed.

(** X9: [find(query).toArray()] returns the payloads of the rows of the
    collection that match the query, in the order of the table, and nothing
    else: no document of another collection, none that does not match, and
    every one that matches. *)
Theorem find_returns_the_matching_documents :
  forall (RegExp_test : string -> string -> option bool) (name : string) (q : jsval)
         (s : DurableObjectStorage) (found : list jsval),
    returned (toArray RegExp_test (find name q) s) = Ok found ->
    found = filter (matches RegExp_test (query (find name q))) (documents_of name s) /\
    forall d,
      In d found <->
      (exists r, In r (rows s) /\ collection r = name /\ data r = d) /\
      matchesQuery RegExp_test d (query (find name q)) = Ok true.
Proof.
  intros RegExp_test name q s found H.
  destruct (toArray_find_returned _ _ _ _ _ H) as [s' Hexec].
  destruct (_execute_filter _ _ _ _ _ Hexec) as [Hfound _].
  cbn [collectionName find] in Hfound. split; [exact Hfound|].
  intros d. rewrite Hfound, filter_In. unfold documents_of, matches.
  rewrite in_map_iff. split.
  - intros [[r [Hd Hr]] Hm]. apply filter_In in Hr. destruct Hr as [Hr Hc].
    apply String.eqb_eq in Hc. split; [eauto|].
    destruct (matchesQuery RegExp_test d _) as [[|]|]; try discriminate. reflexivity.
  - intros [[r [Hr [Hc Hd]]] Hm]. split.
    + exists r. split; [exact Hd|]. apply filter_In. split; [exact Hr|].
      now apply String.eqb_eq.
    + now rewrite Hm.
Qed.

Lemma find_returns_the_matching_documents_witness :
  [Ann; Bob] = filter (matches literal_RegExp (VObj [])) (documents_of "test" sample_storage) /\
  (In Bob [Ann; Bob] <->
   (exists r, In r (rows sample_storage) /\ collection r = "test" /\ data r = Bob) /\
   matchesQuery literal_RegExp Bob (VObj []) = Ok true).
Proof.
  destruct (find_returns_the_matching_documents literal_RegExp "test" VUndefined
              sample_storage [Ann; Bob] eq_refl) as [H1 H2].
  split; [exact H1 | exact (H2 Bob)].
Defined.

Lemma first_kept_splits :
  forall (keep : StoredDocument -> bool) (f : jsval -> outcome bool)
         (table : list StoredDocument) (found : list jsval),
    filterM f (map data (filter keep table)) = Ok found ->
    match found with
    | [] => forall r, In r table -> keep r = true -> f (data r) = Ok false
    | d :: _ =>
        exists pre r post,
          table = (pre ++ r :: post)%list /\ keep r = true /\ data r = d /\
          f d = Ok true /\
          forall r', In r' pre -> keep r' = true -> f (data r') = Ok false
    end.
Proof.
  intros keep f table. induction table as [|r rest IH]; intros found H.
  - cbn in H. inversion H. intros ? [].
  - cbn [filter] in H. destruct (keep r) eqn:Ek.
    + cbn [map filterM] in H. apply bind_Ok_inv in H. destruct H as [k [Hk H]].
      apply bind_Ok_inv in H. destruct H as [found' [Hf H]]. inversion H; subst; clear H.
      destruct k.
      * exists [], r, rest. repeat split; auto. intros ? [].
      * specialize (IH _ Hf). destruct found' as [|d found'].
        -- intros r0 [<-|Hin] Hkeep; auto.
        -- destruct IH as (pre & r0 & post & -> & Hk0 & Hd & Hfd & Hpre).
           exists (r :: pre), r0, post. repeat split; auto.
           intros r' [<-|Hin] Hkeep; auto.
    + specialize (IH _ H). destruct found as [|d found].
      * intros r0 [<-|Hin] Hkeep; [congruence | auto].
      * destruct IH as (pre & r0 & post & -> & Hk0 & Hd & Hfd & Hpre).
        exists (r :: pre), r0, post. repeat split; auto.
        intros r' [<-|Hin] Hkeep; [congruence | auto].
Qed.

(** X10: [findOne] returns the payload of the first row of the collection,
    in the order of the table, whose document matches; it returns [null]
    when no document of the collection matches. *)
Theorem findOne_returns_the_first_match :
  forall (RegExp_test : string -> string -> option bool) (name : string) (q : jsval)
         (s : DurableObjectStorage) (doc : jsval),
    fst (findOne RegExp_test name q s) = Ok doc ->
    (doc = VNull /\
     forall r, In r (rows s) -> collection r = name ->
               matchesQuery RegExp_test (data r) (query (find name q)) = Ok false) \/
    (exists pre r post,
       rows s = (pre ++ r :: post)%list /\ collection r = name /\ data r = doc /\
       matchesQuery RegExp_test doc (query (find name q)) = Ok true /\
       forall r', In r' pre -> collection r' = name ->
                  matchesQuery RegExp_test (data r') (query (find name q)) = Ok false).
Proof.
  intros RegExp_test name q s doc H.
  destruct (_execute RegExp_test (find name q) s) as [[found|e] s'] eqn:E.
  - rewrite (findOne_found _ _ _ _ _ _ E) in H. cbn [fst] in H. inversion H; subst; clear H.
    unfold _execute, getAllDocuments in E. inversion E as [[Hf Hs]]. clear E Hs.
    cbn [collectionName find] in Hf.
    pose proof (first_kept_splits _ _ _ _ Hf) as Hsplit.
    destruct found as [|d found].
    + left. split; [reflexivity|]. intros r Hr Hc. apply Hsplit; [exact Hr|].
      now apply String.eqb_eq.
    + right. destruct Hsplit as (pre & r & post & Hrows & Hk & Hd & Hfd & Hpre).
      exists pre, r, post. apply String.eqb_eq in Hk. repeat split; auto.
      intros r' Hin Hc. apply Hpre; [exact Hin|]. now apply String.eqb_eq.
  - unfold findOne, first in H. rewrite toArray_executes in H by reflexivity.
    rewrite E in H. discriminate.
Qed.

Lemma findOne_returns_the_first_match_witness :
  (Bob = VNull /\
   forall r, In r (rows sample_storage) -> collection r = "test" ->
             matchesQuery literal_RegExp (data r)
               (VObj [("value", VObj [("$gt", VNum 15)])]) = Ok false) \/
  (exists pre r post,
     rows sample_storage = (pre ++ r :: post)%list /\ collection r = "test" /\
     data r = Bob /\
     matchesQuery literal_RegExp Bob (VObj [("value", VObj [("$gt", VNum 15)])]) = Ok true /\
     forall r', In r' pre -> collection r' = "test" ->
                matchesQuery literal_RegExp (data r')
                  (VObj [("value", VObj [("$gt", VNum 15)])]) = Ok false).
Proof.
  exact (findOne_returns_the_first_match literal_RegExp "test"
           (VObj [("value", VObj [("$gt", VNum 15)])]) sample_storage Bob eq_refl).
Defined.

(** ** Pages *)

Lemma Array_slice_from :
  forall {A : Type} (l : list A) (k : Z),
    0 <= k -> Array_slice l k None = skipn (Z.to_nat k) l.
Proof.
  intros A l k Hk. unfold Array_slice, relative_index.
  destruct (k <? 0) eqn:E; [apply Z.ltb_lt in E; lia|].
  destruct (Z_le_gt_dec k (Z.of_nat (List.length l))) as [Hle|Hgt].
  - rewrite Z.min_l by lia. apply firstn_all2. rewrite length_skipn. lia.
  - rewrite Z.min_r by lia. rewrite !skipn_all2 by lia. now rewrite firstn_nil.
Qed.

Lemma Array_slice_to :
  forall {A : Type} (l : list A) (m : Z),
    0 <= m -> Array_slice l 0 (Some m) = firstn (Z.to_nat m) l.
Proof.
  intros A l m Hm. unfold Array_slice, relative_index. cbn [Z.ltb Z.compare].
  destruct (m <? 0) eqn:E; [apply Z.ltb_lt in E; lia|].
  rewrite (Z.min_l 0) by lia. cbn [Z.to_nat skipn]. rewrite Z.sub_0_r.
  destruct (Z_le_gt_dec m (Z.of_nat (List.length l))) as [Hle|Hgt].
  - now rewrite Z.min_l by lia.
  - rewrite Z.min_r by lia. rewrite !firstn_all2 by lia. reflexivity.
Qed.

Lemma Array_slice_from_end :
  forall {A : Type} (l : list A) (k : Z),
    k < 0 -> Array_slice l k None = skipn (Z.to_nat (Z.of_nat (List.length l) + k)) l.
Proof.
  intros A l k Hk. unfold Array_slice, relative_index.
  destruct (k <? 0) eqn:E; [|apply Z.ltb_ge in E; lia].
  assert (Hto : Z.to_nat (Z.max (Z.of_nat (List.length l) + k) 0)
                = Z.to_nat (Z.of_nat (List.length l) + k)) by lia.
  rewrite Hto. apply firstn_all2. rewrite length_skipn. lia.
Qed.

Lemma Array_slice_to_end :
  forall {A : Type} (l : list A) (m : Z),
    m < 0 -> Array_slice l 0 (Some m) = firstn (Z.to_nat (Z.of_nat (List.length l) + m)) l.
Proof.
  intros A l m Hm. unfold Array_slice, relative_index. cbn [Z.ltb Z.compare].
  destruct (m <? 0) eqn:E; [|apply Z.ltb_ge in E; lia].
  rewrite (Z.min_l 0) by lia. cbn [Z.to_nat skipn]. rewrite Z.sub_0_r.
  f_equal. lia.
Qed.

Lemma unsliced_length :
  forall c, List.length (CursorImpl_toArray (unsliced c)) = List.length (documents c).
Proof.
  intros c. unfold CursorImpl_toArray, unsliced. cbn.
  destruct (_sort c); [|reflexivity].
  symmetry. apply Permutation_length, Array_sort_permutation.
Qed.

(** X11: with a positive [skip] of [k] and a positive [limit] of [m],
    [toArray] returns the documents [k+1] to [k+m] of the sorted match set,
    as many as there are; the order in which [skip] and [limit] were called
    does not matter. *)
Theorem toArray_returns_the_page :
  forall (c : Cursor) (k m : Z),
    0 < k -> 0 < m ->
    CursorImpl_toArray (limit m (skip k c)) =
      firstn (Z.to_nat m) (skipn (Z.to_nat k) (CursorImpl_toArray (unsliced c))) /\
    limit m (skip k c) = skip k (limit m c) /\
    List.length (CursorImpl_toArray (limit m (skip k c))) =
      Nat.min (Z.to_nat m) (List.length (documents c) - Z.to_nat k).
Proof.
  intros c k m Hk Hm.
  assert (Hpage : CursorImpl_toArray (limit m (skip k c)) =
                  firstn (Z.to_nat m) (skipn (Z.to_nat k) (CursorImpl_toArray (unsliced c)))).
  { unfold CursorImpl_toArray, limit, skip, unsliced.
    cbn -[Array_slice Array_sort Z.eqb].
    replace (k =? 0) with false by (symmetry; apply Z.eqb_neq; lia).
    replace (m =? 0) with false by (symmetry; apply Z.eqb_neq; lia).
    cbn [negb]. rewrite Array_slice_to by lia. now rewrite Array_slice_from by lia. }
  split; [exact Hpage|]. split; [reflexivity|].
  rewrite Hpage, length_firstn, length_skipn, unsliced_length. reflexivity.
Qed.

Lemma toArray_returns_the_page_witness :
  CursorImpl_toArray (limit 1 (skip 1 (set_documents [Ann; Bob; Eve] (find "test" VUndefined))))
    = [Bob].
Proof.
  rewrite (proj1 (toArray_returns_the_page
                    (set_documents [Ann; Bob; Eve] (find "test" VUndefined)) 1 1
                    eq_refl eq_refl)).
  reflexivity.
Defined.

(** X12: a negative [skip] of [-k] does not skip: [toArray] returns the
    last [k] documents of the sorted match set; a negative [limit] of [-m]
    returns all but the last [m]. *)
Theorem negative_skip_and_limit_count_from_the_end :
  forall (c : Cursor) (n : Z),
    n < 0 ->
    CursorImpl_toArray (skip n (unsliced c)) =
      skipn (Z.to_nat (Z.of_nat (List.length (documents c)) + n))
            (CursorImpl_toArray (unsliced c)) /\
    CursorImpl_toArray (limit n (unsliced c)) =
      firstn (Z.to_nat (Z.of_nat (List.length (documents c)) + n))
             (CursorImpl_toArray (unsliced c)).
Proof.
  intros c n Hn. rewrite <- (unsliced_length c).
  unfold CursorImpl_toArray, limit, skip, unsliced.
  cbn -[Array_slice Array_sort Z.eqb Z.add Z.to_nat].
  replace (n =? 0) with false by (symmetry; apply Z.eqb_neq; lia).
  cbn [negb]. split.
  - now rewrite Array_slice_from_end by lia.
  - now rewrite Array_slice_to_end by lia.
Qed.

Lemma negative_skip_and_limit_count_from_the_end_witness :
  CursorImpl_toArray (skip (-1) (set_documents [Ann; Bob; Eve] (find "test" VUndefined)))
    = [Eve] /\
  CursorImpl_toArray (limit (-1) (set_documents [Ann; Bob; Eve] (find "test" VUndefined)))
    = [Ann; Bob].
Proof.
  destruct (negative_skip_and_limit_count_from_the_end
              (set_documents [Ann; Bob; Eve] (find "test" VUndefined)) (-1) eq_refl)
    as [H1 H2].
  split; [exact H1 | exact H2].
Defined.

(** ** Inserting *)

Lemma matchesQuery_by_id :
  forall RegExp_test props i uuid,
    lookup "_id" props = Some (VStr i) ->
    matchesQuery RegExp_test (VObj props) (VObj [("_id", VStr uuid)])
      = Ok (String.eqb i uuid).
Proof.
  intros RegExp_test props i uuid H.
  rewrite matchesQuery_one_field by reflexivity.
  cbn [matchesField]. unfold matchesLiteral, getNestedProperty.
  cbn [split_dot Ascii.eqb Bool.eqb get_parts js_get]. now rewrite H.
Qed.

Lemma stored_payload_id :
  forall document i,
    exists props, stored_payload document i = VObj props /\
                  lookup "_id" props = Some (VStr i).
Proof.
  intros document i. unfold stored_payload.
  apply JSON_stringify_keeps_id, lookup_assign_same.
Qed.

Lemma existsb_id_false :
  forall i table,
    existsb (fun r => String.eqb (id r) i) table = false ->
    forall r, In r table -> String.eqb (id r) i = false.
Proof.
  intros i table H r Hr. destruct (String.eqb (id r) i) eqn:E; [|reflexivity].
  assert (existsb (fun r => String.eqb (id r) i) table = true)
    by (apply existsb_exists; eauto).
  congruence.
Qed.

Lemma filterM_last :
  forall {A : Type} (f : A -> outcome bool) (l : list A) (x : A),
    (forall y, In y l -> f y = Ok false) -> f x = Ok true ->
    filterM f (l ++ [x]) = Ok [x].
Proof.
  intros A f l x Hl Hx. induction l as [|y r IH]; cbn [app filterM].
  - now rewrite Hx.
  - rewrite (Hl y (or_introl eq_refl)). cbn [bind].
    rewrite IH by (intros; apply Hl; now right). reflexivity.
Qed.

Lemma documents_of_snoc :
  forall name table log i payload,
    documents_of name (mkStorage (table ++ [mkStoredDocument i name payload]) log)
    = (map data (filter (fun r => String.eqb (collection r) name) table) ++ [payload])%list.
Proof.
  intros name table log i payload. unfold documents_of. cbn [rows].
  rewrite filter_app, map_app. cbn [filter collection]. now rewrite String.eqb_refl.
Qed.

Lemma _execute_documents_of :
  forall RegExp_test c s,
    fst (_execute RegExp_test c s) =
    filterM (fun doc => matchesQuery RegExp_test doc (query c))
            (documents_of (collectionName c) s).
Proof. reflexivity. Qed.

(** X13: a document [insertOne] stored is the one [findOne] returns for
    its id: the stored payload, the document with its [_id], and no older
    document. *)
Theorem insertOne_then_findOne :
  forall (RegExp_test : string -> string -> option bool) (name : string)
         (document : jsval) (uuid : string) (s : DurableObjectStorage)
         (i : string) (s' : DurableObjectStorage),
    storage_ok s ->
    insertOne name document uuid s = (Ok i, s') ->
    i = uuid /\
    fst (findOne RegExp_test name (VObj [("_id", VStr i)]) s')
      = Ok (stored_payload document uuid).
Proof.
  intros RegExp_test name document uuid s i s' [Hrows _] H.
  unfold insertOne, sql_insert in H.
  destruct (existsb (fun r => String.eqb (id r) uuid) (rows s)) eqn:E; [discriminate|].
  inversion H; subst; clear H. split; [reflexivity|].
  fold (stored_payload document i).
  match goal with |- fst (findOne _ _ ?Q ?S) = _ =>
    destruct (_execute RegExp_test (find name Q) S) as [result s1] eqn:Hexec;
    pose proof (_execute_documents_of RegExp_test (find name Q) S) as Hdocs
  end.
  rewrite Hexec in Hdocs. cbn [fst collectionName find query] in Hdocs.
  rewrite documents_of_snoc in Hdocs.
  destruct (stored_payload_id document i) as [props [Hp Hid]].
  rewrite filterM_last in Hdocs.
  - subst result. rewrite (findOne_found _ _ _ _ _ _ Hexec). reflexivity.
  - intros d Hd. apply in_map_iff in Hd. destruct Hd as [r [<- Hr]].
    apply filter_In in Hr. destruct Hr as [Hr _].
    destruct (proj1 (Forall_forall _ _) Hrows r Hr) as [props' [-> Hid']].
    rewrite (matchesQuery_by_id _ _ _ _ Hid').
    now rewrite (existsb_id_false _ _ E r Hr).
  - match goal with |- matchesQuery _ ?x _ = _ =>
      change x with (stored_payload document i) end.
    rewrite Hp, (matchesQuery_by_id _ _ _ _ Hid), String.eqb_refl. reflexivity.
Qed.

Lemma insertOne_then_findOne_witness :
  fst (findOne literal_RegExp "test" (VObj [("_id", VStr "9")])
         (snd (insertOne "test" (VObj [("name", VStr "Zoe")]) "9" sample_storage)))
    = Ok (VObj [("name", VStr "Zoe"); ("_id", VStr "9")]).
Proof.
  exact (proj2 (insertOne_then_findOne literal_RegExp "test" (VObj [("name", VStr "Zoe")])
                  "9" sample_storage "9"
                  (snd (insertOne "test" (VObj [("name", VStr "Zoe")]) "9" sample_storage))
                  sample_storage_ok eq_refl)).
Defined.

Lemma insertMany_loop_result :
  forall name randomUUID documents k ids0 s,
    storage_ok s ->
    NoDup (map id (rows s) ++ map randomUUID (seq k (List.length documents))) ->
    exists s',
      insertMany_loop name randomUUID k documents ids0 s
        = Ok ((ids0 ++ map randomUUID (seq k (List.length documents)))%list, s') /\
      rows s' = (rows s ++ inserted_rows name randomUUID k documents)%list /\
      storage_ok s'.
Proof.
  intros name randomUUID documents.
  induction documents as [|document rest IH]; intros k ids0 s Hok Hnd.
  - exists s. cbn. now rewrite !app_nil_r.
  - cbn [insertMany_loop List.length seq map inserted_rows] in *.
    destruct (sql_insert (randomUUID k) name
                (JSON_stringify (VObj (assign "_id" (VStr (randomUUID k)) (spread document))))
                s) as [[u|e] s1] eqn:E.
    + assert (Hone : insertOne name document (randomUUID k) s = (Ok (randomUUID k), s1))
        by (unfold insertOne; now rewrite E).
      pose proof (insertOne_storage_ok _ _ _ _ _ _ Hok Hone) as Hok1.
      assert (Hrows1 : rows s1 = (rows s ++ [mkStoredDocument (randomUUID k) name
                                      (stored_payload document (randomUUID k))])%list).
      { unfold sql_insert in E.
        destruct (existsb (fun r => String.eqb (id r) (randomUUID k)) (rows s));
          inversion E; reflexivity. }
      destruct (IH (S k) (ids0 ++ [randomUUID k])%list s1 Hok1) as [s' [Hloop [Hrows Hok']]].
      { rewrite Hrows1, map_app, <- app_assoc. exact Hnd. }
      exists s'. split; [|split].
      * rewrite Hloop, <- app_assoc. reflexivity.
      * rewrite Hrows, Hrows1, <- app_assoc. reflexivity.
      * exact Hok'.
    + exfalso. unfold sql_insert in E.
      destruct (existsb (fun r => String.eqb (id r) (randomUUID k)) (rows s)) eqn:Ex;
        [|discriminate].
      apply existsb_exists in Ex. destruct Ex as [r [Hr Hid]]. apply String.eqb_eq in Hid.
      apply NoDup_remove_2 in Hnd. apply Hnd, in_or_app. left.
      rewrite <- Hid. now apply in_map.
Qed.

(** X14: when the ids [crypto.randomUUID()] gives are new to the table and
    differ from each other, [insertMany] returns them in the order of the
    documents, one for each, and adds one row for each document after the
    rows of the table, in that order, with the payload [insertOne] would
    store; the table stays well formed. *)
Theorem insertMany_appends_in_order :
  forall (name : string) (documents : list jsval) (randomUUID : nat -> string)
         (s : DurableObjectStorage),
    storage_ok s ->
    NoDup (map id (rows s) ++ map randomUUID (seq 0 (List.length documents))) ->
    exists s',
      insertMany name documents randomUUID s
        = Ok (map randomUUID (seq 0 (List.length documents)), s') /\
      rows s' = (rows s ++ inserted_rows name randomUUID 0 documents)%list /\
      storage_ok s'.
Proof.
  intros name documents randomUUID s Hok Hnd.
  exact (insertMany_loop_result name randomUUID documents 0%nat [] s Hok Hnd).
Qed.

Lemma insertMany_appends_in_order_witness :
  exists s',
    insertMany "test" [VObj [("name", VStr "Zoe")]; VObj [("name", VStr "Yan")]]
               two_uuids sample_storage
      = Ok (["8"; "9"], s') /\
    rows s' = (rows sample_storage ++
               [mkStoredDocument "8" "test" (VObj [("name", VStr "Zoe"); ("_id", VStr "8")]);
                mkStoredDocument "9" "test" (VObj [("name", VStr "Yan"); ("_id", VStr "9")])])%list /\
    storage_ok s'.
Proof.
  apply (insertMany_appends_in_order "test"
           [VObj [("name", VStr "Zoe")]; VObj [("name", VStr "Yan")]]
           two_uuids sample_storage sample_storage_ok).
  cbn. repeat constructor; cbn; intuition discriminate.
Defined.

(** ** Deleting and updating *)

Lemma filter_all :
  forall {A : Type} (f : A -> bool) (l : list A),
    (forall x, In x l -> f x = true) -> filter f l = l.
Proof.
  intros A f l. induction l as [|x r IH]; intros H; [reflexivity|].
  cbn [filter]. rewrite (H x (or_introl eq_refl)). f_equal. apply IH.
  intros; apply H; now right.
Qed.

Lemma filter_filter :
  forall {A : Type} (f g : A -> bool) (l : list A),
    filter f (filter g l) = filter (fun x => g x && f x) l.
Proof.
  intros A f g l. induction l as [|x r IH]; [reflexivity|].
  cbn [filter]. destruct (g x); cbn [andb filter]; [destruct (f x)|]; now rewrite IH.
Qed.

Lemma filterM_none :
  forall {A : Type} (f : A -> outcome bool) (l : list A),
    (forall x, In x l -> f x = Ok false) -> filterM f l = Ok [].
Proof.
  intros A f l. induction l as [|x r IH]; intros H; [reflexivity|].
  cbn [filterM]. rewrite (H x (or_introl eq_refl)). cbn [bind].
  rewrite IH by (intros; apply H; now right). reflexivity.
Qed.

Lemma foldM_app :
  forall {A S : Type} (f : S -> A -> outcome S) (l1 l2 : list A) (s : S),
    foldM f (l1 ++ l2) s = (s' <- foldM f l1 s ;; foldM f l2 s').
Proof.
  intros A S f l1 l2. induction l1 as [|x r IH]; intros s; cbn [app foldM bind].
  - reflexivity.
  - destruct (f s x) as [s1|e]; cbn [bind]; [apply IH | reflexivity].
Qed.

Lemma NoDup_map_filter :
  forall {A B : Type} (g : A -> B) (f : A -> bool) (l : list A),
    NoDup (map g l) -> NoDup (map g (filter f l)).
Proof.
  intros A B g f l. induction l as [|x r IH]; intros H; [exact H|].
  cbn [map] in H. inversion H as [|? ? Hnotin Hnd]; subst.
  cbn [filter]. destruct (f x); [|auto].
  cbn [map]. constructor; [|auto].
  intros Hin. apply Hnotin. apply in_map_iff in Hin. destruct Hin as [y [Hy Hin]].
  apply filter_In in Hin. rewrite <- Hy. apply in_map. tauto.
Qed.

Lemma storage_ok_filter :
  forall (f : StoredDocument -> bool) s s',
    storage_ok s -> rows s' = filter f (rows s) -> storage_ok s'.
Proof.
  intros f s s' [Hrows Hnd] H. unfold storage_ok. rewrite H. split.
  - apply Forall_forall. intros r Hr. apply filter_In in Hr.
    exact (proj1 (Forall_forall _ _) Hrows r (proj1 Hr)).
  - now apply NoDup_map_filter.
Qed.

(** The cursor of [find] has no sort, skip or limit: its [toArray] is what
    [_execute] found. *)
Lemma toArray_find :
  forall RegExp_test name q s found s1,
    _execute RegExp_test (find name q) s = (Ok found, s1) ->
    toArray RegExp_test (find name q) s
      = (Ok (set_documents found (find name q), found), s1).
Proof.
  intros RegExp_test name q s found s1 H.
  rewrite toArray_executes by reflexivity. rewrite H. reflexivity.
Qed.

Lemma toArray_find_throws :
  forall RegExp_test name q s e s1,
    _execute RegExp_test (find name q) s = (Throw e, s1) ->
    toArray RegExp_test (find name q) s = (Throw e, s1).
Proof.
  intros RegExp_test name q s e s1 H.
  rewrite toArray_executes by reflexivity. rewrite H. reflexivity.
Qed.

(** The payload of a well-formed row selects that row. *)
Lemma selects_own_row :
  forall name r, row_ok r -> selects name (data r) r = String.eqb (collection r) name.
Proof.
  intros name r [props [Hp Hid]]. unfold selects, row_selected.
  rewrite Hp. cbn [js_get]. rewrite Hid, String.eqb_refl. reflexivity.
Qed.

(** In a well-formed table the documents found select their own rows and
    no other: a row is selected by one of them when it matches. *)
Lemma selects_iff_matches :
  forall RegExp_test name q s found,
    storage_ok s ->
    found = filter (matches RegExp_test q) (documents_of name s) ->
    forall r, In r (rows s) ->
      existsb (fun d => selects name d r) found = row_matches RegExp_test name q r /\
      (forall d, In d found -> selects name d r = true -> d = data r).
Proof.
  intros RegExp_test name q s found [Hrows Hnd] Hfound r Hr.
  pose proof (proj1 (Forall_forall _ _) Hrows) as Hok.
  assert (Hown : forall d, In d found -> selects name d r = true -> d = data r).
  { intros d Hd Hsel. rewrite Hfound in Hd. apply filter_In in Hd. destruct Hd as [Hd _].
    unfold documents_of in Hd. apply in_map_iff in Hd. destruct Hd as [r' [<- Hr']].
    apply filter_In in Hr'. destruct Hr' as [Hr' _].
    destruct (Hok r' Hr') as [props [Hp Hid]].
    unfold selects, row_selected in Hsel. rewrite Hp in Hsel. cbn [js_get] in Hsel.
    rewrite Hid in Hsel. apply andb_prop in Hsel. destruct Hsel as [Hsel _].
    apply String.eqb_eq in Hsel.
    now rewrite (NoDup_map_injective id (rows s) r r' Hnd Hr Hr' Hsel). }
  split; [|exact Hown].
  unfold row_matches. destruct (String.eqb (collection r) name) eqn:Ec; cbn [andb].
  - destruct (matches RegExp_test q (data r)) eqn:Em.
    + apply existsb_exists. exists (data r). split.
      * rewrite Hfound. apply filter_In. split; [|exact Em].
        unfold documents_of. apply in_map. apply filter_In. now split.
      * rewrite selects_own_row by auto. exact Ec.
    + destruct (existsb (fun d => selects name d r) found) eqn:Ex; [|reflexivity].
      apply existsb_exists in Ex. destruct Ex as [d [Hd Hsel]].
      pose proof (Hown d Hd Hsel) as E. subst d.
      rewrite Hfound in Hd. apply filter_In in Hd. destruct Hd as [_ Hd]. congruence.
  - destruct (existsb (fun d => selects name d r) found) eqn:Ex; [|reflexivity].
    apply existsb_exists in Ex. destruct Ex as [d [_ Hsel]].
    unfold selects, row_selected in Hsel.
    destruct (js_get d "_id"); try discriminate.
    apply andb_prop in Hsel. destruct Hsel as [_ Hsel]. congruence.
Qed.

(** The documents found in a well-formed table are objects. *)
Lemma found_are_objects :
  forall RegExp_test name q s found,
    storage_ok s ->
    found = filter (matches RegExp_test q) (documents_of name s) ->
    forall d, In d found -> is_object d = true.
Proof.
  intros RegExp_test name q s found [Hrows _] Hfound d Hd.
  rewrite Hfound in Hd. apply filter_In in Hd. destruct Hd as [Hd _].
  unfold documents_of in Hd. apply in_map_iff in Hd. destruct Hd as [r [<- Hr]].
  apply filter_In in Hr. destruct Hr as [Hr _].
  destruct (proj1 (Forall_forall _ _) Hrows r Hr) as [props [-> _]]. reflexivity.
Qed.

Lemma js_member_object :
  forall d key, is_object d = true -> js_member d key = Ok (js_get d key).
Proof. intros d key H. destruct d; try discriminate. reflexivity. Qed.

Lemma delete_row :
  forall name pre r post,
    NoDup (map id (pre ++ r :: post)) -> collection r = name ->
    filter (fun r' => negb (row_selected (VStr (id r)) name r')) (pre ++ r :: post)
      = (pre ++ post)%list.
Proof.
  intros name pre r post Hnd Hc. rewrite map_app in Hnd. cbn [map] in Hnd.
  apply NoDup_remove_2 in Hnd.
  assert (Hother : forall x, In x (pre ++ post) ->
                     negb (row_selected (VStr (id r)) name x) = true).
  { intros x Hx. cbn [row_selected]. destruct (String.eqb (id x) (id r)) eqn:E;
      [|reflexivity].
    exfalso. apply Hnd. apply String.eqb_eq in E. rewrite <- E, <- map_app.
    now apply in_map. }
  rewrite filter_app. cbn [filter row_selected].
  rewrite String.eqb_refl, Hc, String.eqb_refl. cbn [andb negb].
  rewrite !filter_all; [reflexivity | |]; intros x Hx; apply Hother, in_or_app; auto.
Qed.

(** X15: [deleteOne] deletes the row of the first document of the
    collection that matches, in the order of the table, and no other row;
    with no match it deletes nothing and returns a count of [0]. *)
Theorem deleteOne_removes_the_first_match :
  forall (RegExp_test : string -> string -> option bool) (name : string) (q : jsval)
         (s : DurableObjectStorage) (result : DeleteResult),
    storage_ok s ->
    fst (deleteOne RegExp_test name q s) = Ok result ->
    (deletedCount result = 0 /\
     rows (snd (deleteOne RegExp_test name q s)) = rows s /\
     forall r, In r (rows s) -> collection r = name ->
               matchesQuery RegExp_test (data r) (query (find name q)) = Ok false) \/
    (deletedCount result = 1 /\
     exists pre r post,
       rows s = (pre ++ r :: post)%list /\ collection r = name /\
       matchesQuery RegExp_test (data r) (query (find name q)) = Ok true /\
       (forall r', In r' pre -> collection r' = name ->
                   matchesQuery RegExp_test (data r') (query (find name q)) = Ok false) /\
       rows (snd (deleteOne RegExp_test name q s)) = (pre ++ post)%list).
Proof.
  intros RegExp_test name q s result [Hrows Hnd] H.
  destruct (_execute RegExp_test (find name q) s) as [[found|e] s1] eqn:E.
  - pose proof (_execute_rows _ _ _ _ _ E) as Hs1.
    unfold deleteOne in *. rewrite (findOne_found _ _ _ _ _ _ E) in *.
    unfold _execute, getAllDocuments in E. inversion E as [[Hf Hs]]. clear E Hs.
    cbn [collectionName find] in Hf.
    pose proof (first_kept_splits _ _ _ _ Hf) as Hsplit.
    destruct found as [|d found].
    + left. cbn [truthy negb fst snd] in *. inversion H; subst; clear H.
      split; [reflexivity|]. split; [reflexivity|].
      intros r Hr Hc. apply Hsplit; [exact Hr|]. now apply String.eqb_eq.
    + right. destruct Hsplit as (pre & r & post & Hsplit & Hk & Hd & Hfd & Hpre).
      apply String.eqb_eq in Hk.
      assert (Hr : In r (rows s)) by (rewrite Hsplit; apply in_or_app; right; now left).
      destruct (proj1 (Forall_forall _ _) Hrows r Hr) as [props [Hp Hid]].
      rewrite Hp in Hd. subst d.
      cbn [truthy negb fst snd js_get] in *. rewrite Hid in *.
      inversion H; subst result; clear H. split; [reflexivity|].
      exists pre, r, post. rewrite Hp. repeat split; auto.
      * intros r' Hin Hc. apply Hpre; [exact Hin|]. now apply String.eqb_eq.
      * unfold sql_delete. cbn [rows]. rewrite Hsplit.
        apply delete_row; [now rewrite <- Hsplit | exact Hk].
  - exfalso. unfold deleteOne, findOne, first in H.
    rewrite (toArray_find_throws _ _ _ _ _ _ E) in H. discriminate.
Qed.

Lemma deleteOne_removes_the_first_match_witness :
  (deletedCount (mkDeleteResult 1) = 0 /\
   rows (snd (deleteOne literal_RegExp "test" (VObj [("value", VObj [("$gt", VNum 15)])])
                sample_storage)) = rows sample_storage /\
   forall r, In r (rows sample_storage) -> collection r = "test" ->
             matchesQuery literal_RegExp (data r)
               (VObj [("value", VObj [("$gt", VNum 15)])]) = Ok false) \/
  (deletedCount (mkDeleteResult 1) = 1 /\
   exists pre r post,
     rows sample_storage = (pre ++ r :: post)%list /\ collection r = "test" /\
     matchesQuery literal_RegExp (data r)
       (VObj [("value", VObj [("$gt", VNum 15)])]) = Ok true /\
     (forall r', In r' pre -> collection r' = "test" ->
                 matchesQuery literal_RegExp (data r')
                   (VObj [("value", VObj [("$gt", VNum 15)])]) = Ok false) /\
     rows (snd (deleteOne literal_RegExp "test" (VObj [("value", VObj [("$gt", VNum 15)])])
                  sample_storage)) = (pre ++ post)%list).
Proof.
  exact (deleteOne_removes_the_first_match literal_RegExp "test"
           (VObj [("value", VObj [("$gt", VNum 15)])]) sample_storage (mkDeleteResult 1)
           sample_storage_ok eq_refl).
Defined.

Lemma toArray_find_returns :
  forall RegExp_test name q s found,
    fst (_execute RegExp_test (find name q) s) = Ok found ->
    returned (toArray RegExp_test (find name q) s) = Ok found.
Proof.
  intros RegExp_test name q s found H.
  destruct (_execute RegExp_test (find name q) s) as [r s1] eqn:E. cbn [fst] in H. subst r.
  unfold returned. now rewrite (toArray_find _ _ _ _ _ _ E).
Qed.

(** The loop of [deleteMany], over documents that are objects. *)
Lemma deleteMany_loop :
  forall name docs n s,
    (forall d, In d docs -> is_object d = true) ->
    foldM (fun '(deletedCount, s) document =>
             id <- js_member document "_id" ;;
             Ok (deletedCount + 1, sql_delete id name s))
          docs (n, s)
    = Ok (n + Z.of_nat (List.length docs),
          mkStorage
            (filter (fun r => negb (existsb (fun d => selects name d r) docs)) (rows s))
            (executed s ++ map (fun d => DELETE (js_get d "_id") name) docs)).
Proof.
  intros name docs. induction docs as [|d rest IH]; intros n s Hobj.
  - cbn [foldM List.length existsb negb map]. rewrite filter_all by reflexivity.
    rewrite app_nil_r, Z.add_0_r. now destruct s.
  - cbn [foldM]. rewrite js_member_object by (apply Hobj; now left). cbn [bind].
    rewrite IH by (intros; apply Hobj; now right).
    unfold sql_delete. cbn [rows executed existsb map List.length].
    rewrite filter_filter, <- app_assoc. cbn [app].
    f_equal. f_equal; [lia|]. f_equal.
    apply filter_ext. intros r. now rewrite negb_orb.
Qed.

(** X16: in a well-formed table, when the evaluation of the query over
    the stored documents does not fail, [deleteMany] returns the number of
    documents found and leaves the rows that are of another collection or do
    not match, in their order; a [find] of the same query then finds
    nothing. *)
Theorem deleteMany_removes_the_matches :
  forall (RegExp_test : string -> string -> option bool) (name : string) (q : jsval)
         (s : DurableObjectStorage) (found : list jsval),
    storage_ok s ->
    returned (toArray RegExp_test (find name q) s) = Ok found ->
    exists s',
      deleteMany RegExp_test name q s
        = Ok (mkDeleteResult (Z.of_nat (List.length found)), s') /\
      rows s' = filter (fun r => negb (row_matches RegExp_test name (query (find name q)) r))
                       (rows s) /\
      storage_ok s' /\
      returned (toArray RegExp_test (find name q) s') = Ok [].
Proof.
  intros RegExp_test name q s found Hok H.
  destruct (toArray_find_returned _ _ _ _ _ H) as [s1 Hexec].
  pose proof (_execute_rows _ _ _ _ _ Hexec) as Hs1.
  destruct (_execute_filter _ _ _ _ _ Hexec) as [Hfound Hall].
  change (collectionName (find name q)) with name in Hfound, Hall.
  pose proof (selects_iff_matches _ _ _ _ _ Hok Hfound) as Hsel.
  pose proof (found_are_objects _ _ _ _ _ Hok Hfound) as Hobj.
  assert (Hdel : exists s',
            deleteMany RegExp_test name q s
              = Ok (mkDeleteResult (Z.of_nat (List.length found)), s') /\
            rows s' = filter (fun r => negb (existsb (fun d => selects name d r) found))
                             (rows s)).
  { unfold deleteMany. rewrite (toArray_find _ _ _ _ _ _ Hexec).
    destruct found as [|d rest].
    - exists s1. split; [reflexivity|]. cbn [existsb negb].
      rewrite filter_all by reflexivity. exact Hs1.
    - cbn [List.length Nat.eqb]. rewrite deleteMany_loop by exact Hobj. cbn [bind].
      eexists. split; [reflexivity|]. cbn [rows]. now rewrite Hs1. }
  destruct Hdel as [s' [Hdel Hrows]].
  assert (Hrows' : rows s' =
            filter (fun r => negb (row_matches RegExp_test name (query (find name q)) r))
                   (rows s)).
  { rewrite Hrows. apply filter_ext_in. intros r Hr.
    now rewrite (proj1 (Hsel r Hr)). }
  exists s'. split; [exact Hdel|]. split; [exact Hrows'|]. split.
  - exact (storage_ok_filter _ _ _ Hok Hrows').
  - apply toArray_find_returns. rewrite _execute_documents_of.
    change (collectionName (find name q)) with name.
    apply filterM_none. intros d Hd. cbn beta. unfold documents_of in Hd.
    apply in_map_iff in Hd. destruct Hd as [r [<- Hr]].
    apply filter_In in Hr. destruct Hr as [Hr Hc]. rewrite Hrows' in Hr.
    apply filter_In in Hr. destruct Hr as [Hr Hm].
    unfold row_matches in Hm. rewrite Hc in Hm. cbn [andb] in Hm.
    destruct (Hall (data r)) as [b Hb].
    { unfold documents_of. apply in_map. apply filter_In. now split. }
    unfold matches in Hm. rewrite Hb in Hm. rewrite Hb.
    destruct b; [discriminate | reflexivity].
Qed.

Lemma deleteMany_removes_the_matches_witness :
  exists s',
    deleteMany literal_RegExp "test" (VObj [("value", VObj [("$gt", VNum 5)])]) sample_storage
      = Ok (mkDeleteResult 2, s') /\
    rows s' = filter (fun r => negb (row_matches literal_RegExp "test"
                                       (VObj [("value", VObj [("$gt", VNum 5)])]) r))
                     (rows sample_storage) /\
    storage_ok s' /\
    returned (toArray literal_RegExp
                (find "test" (VObj [("value", VObj [("$gt", VNum 5)])])) s') = Ok [].
Proof.
  exact (deleteMany_removes_the_matches literal_RegExp "test"
           (VObj [("value", VObj [("$gt", VNum 5)])]) sample_storage [Ann; Bob]
           sample_storage_ok eq_refl).
Defined.

Lemma row_selected_same :
  forall bound name r r',
    id r = id r' -> collection r = collection r' ->
    row_selected bound name r = row_selected bound name r'.
Proof. intros bound name r r' Hi Hc. unfold row_selected. now rewrite Hi, Hc. Qed.

(** What the statements of [updateMany] leave of a row that only the
    document [D] selects. *)
Lemma fold_rewrite_row :
  forall RegExp_test name u D docs r0 r,
    id r = id r0 -> collection r = collection r0 ->
    (forall d, In d docs -> selects name d r0 = true -> d = D) ->
    fold_left (rewrite_row RegExp_test name u) docs r =
      if existsb (fun d => selects name d r0) docs
      then mkStoredDocument (id r0) (collection r0) (updated_payload RegExp_test u D)
      else r.
Proof.
  intros RegExp_test name u D docs r0.
  induction docs as [|d rest IH]; intros r Hi Hc Hown; cbn [fold_left existsb].
  - reflexivity.
  - assert (Hstep : rewrite_row RegExp_test name u r d =
                    if selects name d r0
                    then mkStoredDocument (id r0) (collection r0)
                           (updated_payload RegExp_test u D)
                    else r).
    { unfold rewrite_row, selects. rewrite (row_selected_same _ _ r r0) by auto.
      destruct (row_selected (js_get d "_id") name r0) eqn:Es; [|reflexivity].
      rewrite (Hown d (or_introl eq_refl) Es), Hi, Hc. reflexivity. }
    rewrite Hstep. destruct (selects name d r0) eqn:Es; cbn [orb].
    + rewrite IH; try reflexivity.
      * destruct (existsb (fun d0 => selects name d0 r0) rest); reflexivity.
      * intros d' Hd'. apply Hown. now right.
    + apply IH; auto. intros d' Hd'. apply Hown. now right.
Qed.

(** The loop of [updateMany], over documents that are objects and that
    the update applies to. *)
Lemma updateMany_loop :
  forall RegExp_test name u docs n s,
    (forall d, In d docs ->
       is_object d = true /\ exists d', applyUpdate RegExp_test d u = Ok d') ->
    foldM (fun '(modifiedCount, s) document =>
             id <- js_member document "_id" ;;
             updatedDocument <- applyUpdate RegExp_test document u ;;
             Ok (modifiedCount + 1,
                 sql_update (JSON_stringify updatedDocument) id name s))
          docs (n, s)
    = Ok (n + Z.of_nat (List.length docs),
          mkStorage
            (map (fun r => fold_left (rewrite_row RegExp_test name u) docs r) (rows s))
            (executed s ++
             map (fun d => UPDATE (updated_payload RegExp_test u d) (js_get d "_id") name)
                 docs)).
Proof.
  intros RegExp_test name u docs. induction docs as [|d rest IH]; intros n s Hdocs.
  - cbn [foldM List.length fold_left map]. rewrite map_id, app_nil_r, Z.add_0_r.
    now destruct s.
  - cbn [foldM]. destruct (Hdocs d (or_introl eq_refl)) as [Hobj [d' Hd']].
    rewrite js_member_object by exact Hobj. cbn [bind]. rewrite Hd'. cbn [bind].
    rewrite IH by (intros; apply Hdocs; now right).
    unfold sql_update. cbn [rows executed map List.length fold_left].
    rewrite map_map, <- app_assoc. cbn [app].
    assert (Hp : updated_payload RegExp_test u d = JSON_stringify d')
      by (unfold updated_payload; now rewrite Hd').
    rewrite Hp. f_equal. f_equal; [lia|]. f_equal.
    apply map_ext. intros r. f_equal. unfold rewrite_row, selects. now rewrite Hp.
Qed.



Lemma tags_storage_ok : storage_ok tags_storage.
Proof.
  split.
  - repeat constructor; eexists; split; reflexivity.
  - cbn. repeat constructor; cbn; intuition discriminate.
Qed.



Lemma sql_update_keeps_keys :
  forall text bound name s,
    map id (rows (sql_update text bound name s)) = map id (rows s) /\
    map collection (rows (sql_update text bound name s)) = map collection (rows s).
Proof.
  intros text bound name s. unfold sql_update. cbn [rows]. rewrite !map_map.
  split; apply map_ext; intros r; destruct (row_selected bound name r); reflexivity.
Qed.

Lemma findOne_rows :
  forall RegExp_test name q s,
    rows (snd (findOne RegExp_test name q s)) = rows s.
Proof.
  intros RegExp_test name q s.
  destruct (_execute RegExp_test (find name q) s) as [[found|e] s1] eqn:E.
  - rewrite (findOne_found _ _ _ _ _ _ E). exact (_execute_rows _ _ _ _ _ E).
  - unfold findOne, first. rewrite (toArray_find_throws _ _ _ _ _ _ E).
    exact (_execute_rows _ _ _ _ _ E).
Qed.

Lemma toArray_find_rows :
  forall RegExp_test name q s,
    rows (snd (toArray RegExp_test (find name q) s)) = rows s.
Proof.
  intros RegExp_test name q s.
  destruct (_execute RegExp_test (find name q) s) as [[found|e] s1] eqn:E.
  - rewrite (toArray_find _ _ _ _ _ _ E). exact (_execute_rows _ _ _ _ _ E).
  - rewrite (toArray_find_throws _ _ _ _ _ _ E). exact (_execute_rows _ _ _ _ _ E).
Qed.

Lemma foldM_invariant :
  forall {A S : Type} (P : S -> Prop) (f : S -> A -> outcome S),
    (forall s x s', P s -> f s x = Ok s' -> P s') ->
    forall l s s', P s -> foldM f l s = Ok s' -> P s'.
Proof.
  intros A S P f Hstep l. induction l as [|x r IH]; intros s s' Hs H; cbn [foldM] in H.
  - inversion H; subst. exact Hs.
  - apply bind_Ok_inv in H. destruct H as [s1 [H1 H]]. eauto.
Qed.

(** X19: an update never adds, removes, moves or re-keys a row: after
    [updateOne], whatever it returned, and after an [updateMany] that
    returned, the ids and the collections of the rows are what they were,
    whatever the update wrote, the field [_id] included. *)
Theorem updates_keep_the_rows_in_place :
  forall (RegExp_test : string -> string -> option bool) (name : string) (q : jsval)
         (u : Update) (s : DurableObjectStorage),
    map id (rows (snd (updateOne RegExp_test name q u s))) = map id (rows s) /\
    map collection (rows (snd (updateOne RegExp_test name q u s)))
      = map collection (rows s) /\
    match updateMany RegExp_test name q u s with
    | Ok (_, s') =>
        map id (rows s') = map id (rows s) /\
        map collection (rows s') = map collection (rows s)
    | Throw _ => True
    end.
Proof.
  intros RegExp_test name q u s.
  assert (Hone : map id (rows (snd (updateOne RegExp_test name q u s))) = map id (rows s) /\
                 map collection (rows (snd (updateOne RegExp_test name q u s)))
                   = map collection (rows s)).
  { unfold updateOne. pose proof (findOne_rows RegExp_test name q s) as Hrows.
    destruct (findOne RegExp_test name q s) as [[document|e] s1]; cbn [snd] in *.
    - destruct (negb (truthy document)); cbn [snd]; [now rewrite Hrows|].
      destruct (applyUpdate RegExp_test document u); cbn [snd]; [|now rewrite Hrows].
      rewrite <- Hrows. apply sql_update_keeps_keys.
    - now rewrite Hrows. }
  split; [exact (proj1 Hone)|]. split; [exact (proj2 Hone)|].
  unfold updateMany. pose proof (toArray_find_rows RegExp_test name q s) as Hrows.
  destruct (toArray RegExp_test (find name q) s) as [[[c documents]|e] s1];
    cbn [snd] in Hrows; [|exact I].
  destruct (Nat.eqb (List.length documents) 0); [now rewrite Hrows|].
  match goal with |- match bind ?c _ with _ => _ end => destruct c as [[n s2]|e] eqn:E end;
    cbn [bind]; [|exact I].
  rewrite <- Hrows.
  refine (foldM_invariant
            (fun st => map id (rows (snd st)) = map id (rows s1) /\
                       map collection (rows (snd st)) = map collection (rows s1))
            _ _ documents (0, s1) (n, s2) (conj eq_refl eq_refl) E).
  intros [m st] d [m' st'] [Hi Hc] Hstep. cbn [snd] in *.
  apply bind_Ok_inv in Hstep. destruct Hstep as [i [_ Hstep]].
  apply bind_Ok_inv in Hstep. destruct Hstep as [d' [_ Hstep]].
  inversion Hstep; subst; clear Hstep.
  destruct (sql_update_keeps_keys (JSON_stringify d') i name st) as [Hi' Hc'].
  split; congruence.
Qed.

(** ** The operators of [applyUpdate] *)

Lemma set_parts_object :
  forall parts current v r,
    is_object current = true -> set_parts current parts v = Ok r -> is_object r = true.
Proof.
  intros parts current v r Hobj H. destruct current; try discriminate.
  destruct parts as [|part [|p2 rest]].
  - inversion H. reflexivity.
  - inversion H. reflexivity.
  - cbn [set_parts js_in bind] in H.
    destruct (lookup part props).
    + apply bind_Ok_inv in H. destruct H as [next [_ H]]. inversion H. reflexivity.
    + cbn [js_set bind] in H.
      apply bind_Ok_inv in H. destruct H as [next [_ H]]. inversion H. reflexivity.
Qed.

Lemma delete_parts_object :
  forall parts current r,
    is_object current = true -> delete_parts current parts = Ok r -> is_object r = true.
Proof.
  intros parts current r Hobj H. destruct current; try discriminate.
  destruct parts as [|part [|p2 rest]].
  - inversion H. reflexivity.
  - inversion H. reflexivity.
  - cbn [delete_parts js_in bind] in H.
    destruct (lookup part props).
    + apply bind_Ok_inv in H. destruct H as [next [_ H]]. inversion H. reflexivity.
    + inversion H. reflexivity.
Qed.

Lemma apply_field_object :
  forall RegExp_test operator result entry r,
    is_object result = true ->
    apply_field RegExp_test operator result entry = Ok r ->
    is_object r = true.
Proof.
  intros RegExp_test operator result [field value] r Hobj H.
  unfold apply_field, setNestedProperty, deleteNestedProperty in H.
  repeat match type of H with
         | (if ?b then _ else _) = Ok _ => destruct b
         | match ?x with _ => _ end = Ok _ => destruct x
         | bind _ _ = Ok _ => apply bind_Ok_inv in H; destruct H as [? [_ H]]
         end;
    try discriminate;
    try (inversion H; subst; exact Hobj);
    try exact (set_parts_object _ _ _ _ Hobj H);
    try exact (delete_parts_object _ _ _ Hobj H).
Qed.

Lemma applyUpdate_object :
  forall RegExp_test document u r,
    applyUpdate RegExp_test document u = Ok r -> is_object r = true.
Proof.
  intros RegExp_test document u r H. unfold applyUpdate in H.
  refine (foldM_invariant (fun v => is_object v = true) _ _ u
            (VObj (spread document)) r eq_refl H).
  intros result [operator fields] result' Hobj Hstep.
  refine (foldM_invariant (fun v => is_object v = true) _ _ fields result result' Hobj Hstep).
  intros v entry v' Hv Hentry. exact (apply_field_object _ _ _ _ _ Hv Hentry).
Qed.

Lemma spread_object :
  forall v, is_object v = true -> VObj (spread v) = v.
Proof. intros v H. destruct v; try discriminate. reflexivity. Qed.

(** X20: [applyUpdate] applies the operators of the update in the order
    of its keys, and the fields of an operator in the order of theirs, each
    to what the ones before it made: an update is the sequence of its parts,
    and fails where the first of them fails. What it returns is an object. *)
Theorem applyUpdate_applies_the_entries_in_order :
  forall (RegExp_test : string -> string -> option bool) (document : jsval)
         (u1 u2 : Update) (operator : string) (f1 f2 : list (string * jsval)),
    applyUpdate RegExp_test document (u1 ++ u2)%list =
      (r <- applyUpdate RegExp_test document u1 ;; applyUpdate RegExp_test r u2) /\
    applyUpdate RegExp_test document [(operator, (f1 ++ f2)%list)] =
      (r <- applyUpdate RegExp_test document [(operator, f1)] ;;
       applyUpdate RegExp_test r [(operator, f2)]) /\
    match applyUpdate RegExp_test document u1 with
    | Ok r => is_object r = true
    | Throw _ => True
    end.
Proof.
  intros RegExp_test document u1 u2 operator f1 f2. split; [|split].
  - destruct (applyUpdate RegExp_test document u1) as [r|e] eqn:E.
    + pose proof (applyUpdate_object _ _ _ _ E) as Hobj.
      unfold applyUpdate in *. rewrite foldM_app, E. cbn [bind].
      now rewrite (spread_object r Hobj).
    + unfold applyUpdate in *. rewrite foldM_app, E. reflexivity.
  - destruct (applyUpdate RegExp_test document [(operator, f1)]) as [r|e] eqn:E.
    + pose proof (applyUpdate_object _ _ _ _ E) as Hobj.
      unfold applyUpdate in *. cbn [foldM] in *. rewrite bind_Ok_r in *.
      rewrite foldM_app, E. cbn [bind]. rewrite (spread_object r Hobj).
      now rewrite bind_Ok_r.
    + unfold applyUpdate in *. cbn [foldM] in *. rewrite bind_Ok_r in *.
      rewrite foldM_app, E. reflexivity.
  - destruct (applyUpdate RegExp_test document u1) as [r|e] eqn:E; [|exact I].
    exact (applyUpdate_object _ _ _ _ E).
Qed.

Lemma apply_field_unknown :
  forall RegExp_test operator result entry,
    update_operator operator = false ->
    apply_field RegExp_test operator result entry = Ok result.
Proof.
  intros RegExp_test operator result [field value] H.
  unfold update_operator in H. cbn [existsb] in H.
  repeat (apply orb_false_elim in H; destruct H as [? H]).
  unfold apply_field.
  repeat match goal with E : String.eqb operator _ = false |- _ => rewrite E; clear E end.
  reflexivity.
Qed.

(** X21: an operator [applyUpdate] has no case for is skipped with its
    fields: the update does what it does without that entry, and never fails
    because of it. *)
Theorem applyUpdate_skips_unknown_operators :
  forall (RegExp_test : string -> string -> option bool) (document : jsval)
         (operator : string) (fields : list (string * jsval)) (u1 u2 : Update),
    update_operator operator = false ->
    applyUpdate RegExp_test document (u1 ++ (operator, fields) :: u2)%list =
    applyUpdate RegExp_test document (u1 ++ u2)%list.
Proof.
  intros RegExp_test document operator fields u1 u2 H.
  unfold applyUpdate. rewrite !foldM_app.
  destruct (foldM _ u1 (VObj (spread document))) as [r|e]; cbn [bind foldM]; [|reflexivity].
  assert (Hskip : foldM (apply_field RegExp_test operator) fields r = Ok r).
  { clear -H. induction fields as [|entry rest IH]; cbn [foldM]; [reflexivity|].
    rewrite apply_field_unknown by exact H. exact IH. }
  rewrite Hskip. reflexivity.
Qed.

Lemma applyUpdate_skips_unknown_operators_witness :
  applyUpdate literal_RegExp Tom
    [("$set", [("age", VNum 30)]); ("$rename", [("name", VStr "alias")]);
     ("$unset", [("profile", VStr "")])]
  = Ok (VObj [("_id", VStr "7"); ("name", VStr "Tom"); ("age", VNum 30)]).
Proof.
  exact (eq_trans
           (applyUpdate_skips_unknown_operators literal_RegExp Tom "$rename"
              [("name", VStr "alias")] [("$set", [("age", VNum 30)])]
              [("$unset", [("profile", VStr "")])] eq_refl)
           eq_refl).
Defined.

Lemma same_value_zero_refl :
  forall v, is_container v = false -> same_value_zero v v = true.
Proof.
  intros v H. destruct v; try discriminate; cbn; try reflexivity.
  - apply Bool.eqb_reflx.
  - apply Z.eqb_refl.
  - apply String.eqb_refl.
Qed.

(** X22: [$addToSet] of a value that is not an object leaves an array
    that holds the value, and a second [$addToSet] of that value changes
    nothing. *)
Theorem addToSet_adds_a_primitive_once :
  forall (RegExp_test : string -> string -> option bool)
         (props : list (string * jsval)) (f : string) (v r1 : jsval),
    is_container v = false ->
    applyUpdate RegExp_test (VObj props) [("$addToSet", [(f, v)])] = Ok r1 ->
    (exists l, getNestedProperty r1 f = VArr l /\ Array_includes l v = true) /\
    applyUpdate RegExp_test r1 [("$addToSet", [(f, v)])] = Ok r1.
Proof.
  intros RegExp_test props f v r1 Hv H.
  pose proof (applyUpdate_object _ _ _ _ H) as Hobj.
  destruct r1 as [| | | | | | |p1]; try discriminate. rewrite applyUpdate_single in *.
  assert (Hcase : forall result,
            apply_field RegExp_test "$addToSet" result (f, v) =
            match or_default (getNestedProperty result f) (VArr []) with
            | VArr currentValue =>
                if Array_includes currentValue v then Ok result
                else setNestedProperty result f (VArr (currentValue ++ [v]))
            | _ => Throw (InvalidFieldType "$addToSet" f)
            end) by reflexivity.
  rewrite Hcase in H.
  assert (Hread : exists l, getNestedProperty (VObj p1) f = VArr l /\
                            Array_includes l v = true).
  { destruct (or_default (getNestedProperty (VObj props) f) (VArr [])) as [| | | | | |cur|]
      eqn:Ed; try discriminate.
    destruct (Array_includes cur v) eqn:Ei.
    - inversion H; subst. exists cur. split; [|exact Ei].
      unfold or_default in Ed.
      destruct (truthy (getNestedProperty (VObj p1) f)); [exact Ed|].
      inversion Ed; subst. discriminate.
    - exists (cur ++ [v])%list. split.
      + unfold setNestedProperty in H. unfold getNestedProperty.
        eapply get_after_set; [apply split_dot_not_empty | exact H].
      + unfold Array_includes. rewrite existsb_app. cbn [existsb].
        rewrite same_value_zero_refl by exact Hv. now rewrite !orb_true_r. }
  split; [exact Hread|]. destruct Hread as [l [Hl Hi]].
  rewrite Hcase, Hl. cbn [or_default truthy]. now rewrite Hi.
Qed.

Lemma addToSet_adds_a_primitive_once_witness :
  (exists l, getNestedProperty (VObj [("_id", VStr "1"); ("tags", VArr [VStr "a"; VStr "b"])])
               "tags" = VArr l /\ Array_includes l (VStr "b") = true) /\
  applyUpdate literal_RegExp (VObj [("_id", VStr "1"); ("tags", VArr [VStr "a"; VStr "b"])])
    [("$addToSet", [("tags", VStr "b")])]
  = Ok (VObj [("_id", VStr "1"); ("tags", VArr [VStr "a"; VStr "b"])]).
Proof.
  exact (addToSet_adds_a_primitive_once literal_RegExp
           [("_id", VStr "1"); ("tags", VArr [VStr "a"])] "tags" (VStr "b")
           (VObj [("_id", VStr "1"); ("tags", VArr [VStr "a"; VStr "b"])])
           eq_refl eq_refl).
Defined.

Lemma Array_slice_removelast :
  forall {A : Type} (l : list A), Array_slice l 0 (Some (-1)) = removelast l.
Proof.
  intros A l. rewrite Array_slice_to_end by lia. rewrite removelast_firstn_len.
  f_equal. lia.
Qed.

Lemma Array_slice_tl :
  forall {A : Type} (l : list A), Array_slice l 1 None = tl l.
Proof.
  intros A l. rewrite Array_slice_from by lia. destruct l; reflexivity.
Qed.

(** X23: [$pop] fails with [InvalidFieldType] on a field that holds no
    array, a missing field included. On an array, the operand [1] removes
    the last element, [-1] the first, and any other operand nothing; an
    empty array stays empty. *)
Theorem pop_removes_one_end :
  forall (RegExp_test : string -> string -> option bool)
         (props : list (string * jsval)) (f : string) (v : jsval),
    (is_array (getNestedProperty (VObj props) f) = false ->
     applyUpdate RegExp_test (VObj props) [("$pop", [(f, v)])]
       = Throw (InvalidFieldType "$pop" f)) /\
    (forall l r1,
       getNestedProperty (VObj props) f = VArr l ->
       applyUpdate RegExp_test (VObj props) [("$pop", [(f, v)])] = Ok r1 ->
       getNestedProperty r1 f =
         VArr (if strict_eq v (VNum 1) then removelast l
               else if strict_eq v (VNum (-1)) then tl l
               else l)).
Proof.
  intros RegExp_test props f v. rewrite applyUpdate_single.
  assert (Hcase :
            apply_field RegExp_test "$pop" (VObj props) (f, v) =
            match getNestedProperty (VObj props) f with
            | VArr currentValue =>
                if strict_eq v (VNum 1) then
                  setNestedProperty (VObj props) f
                    (VArr (Array_slice currentValue 0 (Some (-1))))
                else if strict_eq v (VNum (-1)) then
                  setNestedProperty (VObj props) f (VArr (Array_slice currentValue 1 None))
                else Ok (VObj props)
            | _ => Throw (InvalidFieldType "$pop" f)
            end) by reflexivity.
  rewrite Hcase. split.
  - intros H. destruct (getNestedProperty (VObj props) f); try reflexivity. discriminate.
  - intros l r1 Hl H. rewrite Hl in H.
    destruct (strict_eq v (VNum 1)); [|destruct (strict_eq v (VNum (-1)))].
    + rewrite Array_slice_removelast in H. unfold setNestedProperty in H.
      unfold getNestedProperty. eapply get_after_set; [apply split_dot_not_empty | exact H].
    + rewrite Array_slice_tl in H. unfold setNestedProperty in H.
      unfold getNestedProperty. eapply get_after_set; [apply split_dot_not_empty | exact H].
    + inversion H; subst. exact Hl.
Qed.

Lemma pop_removes_one_end_witness :
  applyUpdate literal_RegExp Tom [("$pop", [("tags", VNum 1)])]
    = Throw (InvalidFieldType "$pop" "tags") /\
  getNestedProperty (VObj [("tags", VArr [VStr "b"; VStr "c"])]) "tags"
    = VArr [VStr "b"; VStr "c"].
Proof.
  split.
  - exact (proj1 (pop_removes_one_end literal_RegExp
                    [("_id", VStr "7"); ("name", VStr "Tom");
                     ("profile", VObj [("city", VStr "Oslo")])] "tags" (VNum 1)) eq_refl).
  - exact (proj2 (pop_removes_one_end literal_RegExp
                    [("tags", VArr [VStr "a"; VStr "b"; VStr "c"])] "tags" (VNum (-1)))
                 [VStr "a"; VStr "b"; VStr "c"]
                 (VObj [("tags", VArr [VStr "b"; VStr "c"])]) eq_refl eq_refl).
Defined.



(** X25: [$pull] of a value that is not an object removes from the array
    the elements strictly equal to the value, all of them, and keeps the
    others in their order. *)
Theorem pull_removes_the_equal_items :
  forall (RegExp_test : string -> string -> option bool)
         (props : list (string * jsval)) (f : string) (l : list jsval) (v r1 : jsval),
    is_container v = false ->
    getNestedProperty (VObj props) f = VArr l ->
    applyUpdate RegExp_test (VObj props) [("$pull", [(f, v)])] = Ok r1 ->
    getNestedProperty r1 f = VArr (filter (fun item => negb (strict_eq item v)) l).
Proof.
  intros RegExp_test props f l v r1 Hv Hl H. rewrite applyUpdate_single in H.
  assert (Hcase :
            apply_field RegExp_test "$pull" (VObj props) (f, v) =
            match getNestedProperty (VObj props) f with
            | VArr currentValue =>
                kept <- filterM (fun item =>
                          b <- matchesQuery RegExp_test (VObj [("item", item)])
                                 (VObj [("item", v)]) ;;
                          Ok (negb b)) currentValue ;;
                setNestedProperty (VObj props) f (VArr kept)
            | _ => Throw (InvalidFieldType "$pull" f)
            end) by reflexivity.
  rewrite Hcase, Hl in H. apply bind_Ok_inv in H. destruct H as [kept [Hk H]].
  assert (Hget : getNestedProperty r1 f = VArr kept).
  { unfold setNestedProperty in H. unfold getNestedProperty.
    eapply get_after_set; [apply split_dot_not_empty | exact H]. }
  rewrite Hget. f_equal. destruct (filterM_filter _ _ _ Hk) as [-> _].
  apply filter_ext. intros item.
  rewrite matchesQuery_one_field by reflexivity.
  destruct v; try discriminate; cbn [matchesField bind]; unfold matchesLiteral; cbn [bind];
    match goal with |- context [strict_eq ?a ?b] =>
      change a with item; destruct (strict_eq item b); reflexivity
    end.
Qed.

Lemma pull_removes_the_equal_items_witness :
  getNestedProperty (VObj [("tags", VArr [VStr "b"; VStr "c"])]) "tags"
    = VArr (filter (fun item => negb (strict_eq item (VStr "a")))
                   [VStr "a"; VStr "b"; VStr "a"; VStr "c"]).
Proof.
  exact (pull_removes_the_equal_items literal_RegExp
           [("tags", VArr [VStr "a"; VStr "b"; VStr "a"; VStr "c"])] "tags"
           [VStr "a"; VStr "b"; VStr "a"; VStr "c"] (VStr "a")
           (VObj [("tags", VArr [VStr "b"; VStr "c"])]) eq_refl eq_refl eq_refl).
Defined.
